(** * utili.CopyDir: a shallow embedding and its properties

    The Go package [utili] copies a directory tree below a destination
    directory, renaming directories through a caller-supplied function and
    rendering file names and file contents as [html/template] templates when
    template data is supplied.

    The development follows the layout of the source:
    - [GoStrings]: the functions of package [strings] that the code calls;
    - [DotRename], [IdentityRename]: the two rename policies;
    - [Template]: the fragment of [html/template] that the code exercises;
    - [Filepath], [OS]: paths and a filesystem store with the system calls
      that [CopyDir2] and [copyFile] issue;
    - [copyFile], [CopyDir2]: the copier itself;
    - [tree], [holds], [mirror]: directory trees, to state what a copy is;
    - the properties, one section per topic. *)

From Stdlib Require Import Ascii String.
From stdpp Require Import gmap strings list fin_maps sorting.

Local Open Scope string_scope.
Local Open Scope list_scope.

(** ** Package [strings] *)

Module GoStrings.

(** [s[n:]] and [s[:n]] on byte strings. *)
Fixpoint drop (n : nat) (s : string) : string :=
  match n, s with
  | 0, _ => s
  | S n', String _ s' => drop n' s'
  | S _, EmptyString => EmptyString
  end.

Fixpoint take (n : nat) (s : string) : string :=
  match n, s with
  | 0, _ => EmptyString
  | S n', String c s' => String c (take n' s')
  | S _, EmptyString => EmptyString
  end.

(** [strings.HasPrefix(s, prefix)]. *)
Fixpoint HasPrefix (s prefix : string) {struct prefix} : bool :=
  match prefix, s with
  | EmptyString, _ => true
  | String c p', String d s' => if Ascii.eqb c d then HasPrefix s' p' else false
  | String _ _, EmptyString => false
  end.

(** [strings.HasSuffix(s, suffix)]:
    [len(s) >= len(suffix) && s[len(s)-len(suffix):] == suffix]. *)
Definition HasSuffix (s suffix : string) : bool :=
  (String.length suffix <=? String.length s)%nat &&
  String.eqb (drop (String.length s - String.length suffix) s) suffix.

(** [strings.TrimSuffix(s, suffix)]. *)
Definition TrimSuffix (s suffix : string) : string :=
  if HasSuffix s suffix
  then take (String.length s - String.length suffix) s
  else s.

(** [strings.Index(s, substr)]: the offset of the first occurrence;
    Go's [-1] is [None]. *)
Fixpoint Index (s substr : string) : option nat :=
  if HasPrefix s substr then Some 0
  else match s with
       | EmptyString => None
       | String _ s' => S <$> Index s' substr
       end.

(** [strings.Replace(s, old, new, n)] for [n >= 0] and a non-empty [old]
    (the only call passes ["dot."] and [1]): the first [n] occurrences of
    [old], scanned left to right without overlap, become [new]. *)
Fixpoint Replace (s old new : string) (n : nat) : string :=
  match n with
  | 0 => s
  | S n' =>
      if String.eqb old new then s
      else match Index s old with
           | None => s
           | Some j =>
               take j s +:+ new +:+
               Replace (drop (j + String.length old) s) old new n'
           end
  end.

End GoStrings.

(** ** The rename policies (part_000, lines 20-38) *)

Definition RenameFn : Type := string → string.

Definition DotRename : RenameFn :=
  λ name, GoStrings.Replace name "dot." "." 1.

Definition IdentityRename : RenameFn := λ name, name.

(** ** Package [html/template]

    The fragment of the template language that the copier's callers use,
    and that this development gives a meaning to: literal text and actions
    of the form [{{.key}}] (a field of the data map), with optional blanks
    around the field. A bare identifier [{{name}}] is a function call in
    Go's templates; for an undefined function [Parse] fails. Everything else
    (pipelines, control structures, comments, trim markers, quoted strings)
    is [OutsideFragment]: the model makes no statement about it.

    [html/template] escapes at execution time. A template whose literal text
    holds no ['<'] stays in the HTML text context from start to end, where
    every action is piped through the HTML escaper; a text with ['<'] may
    change the context and is outside the fragment. *)

Module Template.

Inductive item :=
| ItemText (text : string)
| ItemAction (body : string)
| ItemUnclosed.

(** The lexer: a scan for the delimiters, in text or inside an action.
    [acc] holds the bytes of the current item, last byte first. *)
Fixpoint lex (inAction : bool) (acc : string) (input : string) : list item :=
  match input with
  | EmptyString =>
      if inAction then [ItemUnclosed] else [ItemText (String.rev acc)]
  | String c rest =>
      if inAction then
        match rest with
        | String d rest' =>
            if Ascii.eqb c "}"%char && Ascii.eqb d "}"%char
            then ItemAction (String.rev acc) :: lex false EmptyString rest'
            else lex true (String c acc) rest
        | EmptyString => lex true (String c acc) rest
        end
      else
        match rest with
        | String d rest' =>
            if Ascii.eqb c "{"%char && Ascii.eqb d "{"%char
            then ItemText (String.rev acc) :: lex true EmptyString rest'
            else lex false (String c acc) rest
        | EmptyString => lex false (String c acc) rest
        end
  end.

Definition isDigit (c : ascii) : bool :=
  let n := nat_of_ascii c in (48 <=? n)%nat && (n <=? 57)%nat.

(** [isAlphaNumeric] of the lexer, on ASCII. *)
Definition isAlphaNumeric (c : ascii) : bool :=
  let n := nat_of_ascii c in
  Ascii.eqb c "_"%char || isDigit c ||
  ((65 <=? n)%nat && (n <=? 90)%nat) || ((97 <=? n)%nat && (n <=? 122)%nat).

Fixpoint allb (f : ascii → bool) (s : string) : bool :=
  match s with
  | EmptyString => true
  | String c s' => f c && allb f s'
  end.

Definition isIdentifier (s : string) : bool :=
  match s with
  | EmptyString => false
  | String c _ => negb (isDigit c) && allb isAlphaNumeric s
  end.

Fixpoint trimLeft (s : string) : string :=
  match s with
  | String c s' => if Ascii.eqb c " "%char then trimLeft s' else s
  | EmptyString => s
  end.

Definition trimSpace (s : string) : string :=
  String.rev (trimLeft (String.rev (trimLeft s))).

(** Identifiers that the lexer or the function maps know: keywords,
    constants, the predefined functions, and the names [html/template]
    reserves for its escapers (all start with an underscore). *)
Definition reserved : list string :=
  [ "block"; "break"; "continue"; "define"; "else"; "end"; "if"; "range";
    "nil"; "template"; "with"; "true"; "false";
    "and"; "call"; "html"; "index"; "slice"; "js"; "len"; "not"; "or";
    "print"; "printf"; "println"; "urlquery";
    "eq"; "ge"; "gt"; "le"; "lt"; "ne" ].

Definition isReserved (s : string) : bool :=
  bool_decide (s ∈ reserved) || GoStrings.HasPrefix s "_".

Inductive node :=
| TextNode (text : string)
| FieldNode (ident : string).

Inductive parse_error :=
| UnclosedAction
| FunctionNotDefined (name : string).

Inductive parsed :=
| Parsed (tree : list node)
| ParseError (e : parse_error)
| OutsideFragment.

Definition parseAction (body : string) : parsed :=
  let b := trimSpace body in
  match b with
  | String c ident =>
      if Ascii.eqb c "."%char && isIdentifier ident then Parsed [FieldNode ident]
      else if isIdentifier b && negb (isReserved b)
           then ParseError (FunctionNotDefined b)
           else OutsideFragment
  | EmptyString => OutsideFragment
  end.

(** The parser reads the items from left to right and stops at the first
    one it rejects. *)
Fixpoint parseItems (items : list item) : parsed :=
  match items with
  | [] => Parsed []
  | ItemUnclosed :: _ => ParseError UnclosedAction
  | ItemText t :: rest =>
      match parseItems rest with
      | Parsed tree =>
          Parsed (match t with EmptyString => tree | _ => TextNode t :: tree end)
      | r => r
      end
  | ItemAction body :: rest =>
      match parseAction body with
      | Parsed nodes =>
          match parseItems rest with
          | Parsed tree => Parsed (nodes ++ tree)
          | r => r
          end
      | r => r
      end
  end.

(** [template.New(name).Parse(text)]; the template's name only shows in
    messages and is left out. *)
Definition Parse (text : string) : parsed :=
  parseItems (lex false EmptyString text).

(** [htmlReplacementTable]: the escaper works rune by rune, and every rune
    it replaces is a single byte below ['?'], so a byte-wise map is exact.
    NUL becomes U+FFFD (bytes EF BF BD). *)
Definition htmlReplacement (c : ascii) : option string :=
  if Ascii.eqb c (ascii_of_nat 0) then
    Some (String (ascii_of_nat 239)
           (String (ascii_of_nat 191) (String (ascii_of_nat 189) EmptyString)))
  else if Ascii.eqb c (ascii_of_nat 34) then Some "&#34;"
  else if Ascii.eqb c "&"%char then Some "&amp;"
  else if Ascii.eqb c "'"%char then Some "&#39;"
  else if Ascii.eqb c "+"%char then Some "&#43;"
  else if Ascii.eqb c "<"%char then Some "&lt;"
  else if Ascii.eqb c ">"%char then Some "&gt;"
  else None.

(** [htmlEscaper] on a plain string value. *)
Fixpoint htmlEscaper (s : string) : string :=
  match s with
  | EmptyString => EmptyString
  | String c s' =>
      match htmlReplacement c with
      | Some repl => repl +:+ htmlEscaper s'
      | None => String c (htmlEscaper s')
      end
  end.

Inductive exec_error :=
| MapHasNoEntry (key : string).

(** Execution with [missingkey=error] against a [map[string]string]:
    output is written node by node, so what precedes a failing action has
    reached the writer when the error is returned. *)
Fixpoint execute (tree : list node) (data : gmap string string)
  : string * option exec_error :=
  match tree with
  | [] => (EmptyString, None)
  | TextNode t :: rest =>
      let '(out, err) := execute rest data in (t +:+ out, err)
  | FieldNode key :: rest =>
      match data !! key with
      | None => (EmptyString, Some (MapHasNoEntry key))
      | Some v =>
          let '(out, err) := execute rest data in (htmlEscaper v +:+ out, err)
      end
  end.

Definition textContext (n : node) : bool :=
  match n with
  | TextNode t => allb (λ c, negb (Ascii.eqb c "<"%char)) t
  | FieldNode _ => true
  end.

Inductive executed :=
| Wrote (out : string) (err : option exec_error)
| EscapeOutsideFragment.

(** [tmpl.Execute(w, data)]: the escaping pass, then the execution. *)
Definition Execute (tree : list node) (data : gmap string string) : executed :=
  if forallb textContext tree
  then let '(out, err) := execute tree data in Wrote out err
  else EscapeOutsideFragment.

End Template.

(** ** Paths (package [path/filepath])

    A path is absolute and clean: the list of its components from the root.
    [Join] cleans lexically, as [filepath.Join] does on a rooted path. *)

Abbreviation path := (list string).

Module Filepath.

(** The components of [s] between slashes; [acc] is the current one, last
    byte first. *)
Fixpoint split (acc : string) (s : string) : list string :=
  match s with
  | EmptyString => [String.rev acc]
  | String c s' =>
      if Ascii.eqb c "/"%char
      then String.rev acc :: split EmptyString s'
      else split (String c acc) s'
  end.

Definition enter (p : path) (elem : string) : path :=
  if String.eqb elem EmptyString || String.eqb elem "." then p
  else if String.eqb elem ".." then removelast p
  else p ++ [elem].

(** [filepath.Join(dir, name)] for a rooted, clean [dir]. *)
Definition Join (dir : path) (name : string) : path :=
  foldl enter dir (split EmptyString name).

(** [filepath.Base(p)]; the base of the root is ["/"]. *)
Definition Base (p : path) : string :=
  match last p with
  | Some name => name
  | None => "/"
  end.

(** A name that is one path component. *)
Definition isName (s : string) : bool :=
  negb (String.eqb s EmptyString) && negb (String.eqb s ".") &&
  negb (String.eqb s "..") &&
  Template.allb (λ c, negb (Ascii.eqb c "/"%char)) s.

End Filepath.

(** ** The filesystem (package [os], [io/ioutil])

    The store maps each existing path to its node. Only directories and
    regular files are modelled. The permission of a node is the mode passed
    to the call that created it; the process umask is not modelled. *)

Module OS.

Inductive node :=
| Dir (perm : N)
| File (perm : N) (data : string).

Abbreviation FS := (gmap path node).

Definition isDir (n : node) : bool :=
  match n with Dir _ => true | File _ _ => false end.

Inductive Errno := ENOENT | ENOTDIR | EEXIST | EISDIR.

(** [*fs.PathError]. *)
Record PathError := mkPathError { Op : string; Path : path; Err : Errno }.

(** The error of resolving an absent path: [ENOTDIR] when a component on
    the way is a regular file, [ENOENT] otherwise. *)
Definition absent (fs : FS) (p : path) : Errno :=
  if existsb (λ n, match fs !! take n p with
                   | Some (File _ _) => true
                   | _ => false
                   end) (seq 0 (length p))
  then ENOTDIR else ENOENT.

(** [os.Stat]. *)
Definition Stat (name : path) (fs : FS) : PathError + node :=
  match fs !! name with
  | Some n => inr n
  | None => inl (mkPathError "stat" name (absent fs name))
  end.

(** [os.Mkdir]. *)
Definition Mkdir (name : path) (perm : N) (fs : FS) : option PathError * FS :=
  match fs !! name with
  | Some _ => (Some (mkPathError "mkdir" name EEXIST), fs)
  | None =>
      match name, fs !! removelast name with
      | _ :: _, Some (Dir _) => (None, <[name := Dir perm]> fs)
      | _, _ => (Some (mkPathError "mkdir" name (absent fs name)), fs)
      end
  end.

(** [os.MkdirAll], on the path's components last first: the fast path on
    an existing node, else the parent first and then [Mkdir]. *)
Fixpoint MkdirAllUp (rname : list string) (perm : N) (fs : FS)
  : option PathError * FS :=
  let name := rev rname in
  match fs !! name with
  | Some (Dir _) => (None, fs)
  | Some (File _ _) => (Some (mkPathError "mkdir" name ENOTDIR), fs)
  | None =>
      let '(err, fs1) :=
        match rname with
        | [] => (None, fs)
        | _ :: rparent => MkdirAllUp rparent perm fs
        end in
      match err with
      | Some e => (Some e, fs1)
      | None =>
          match Mkdir name perm fs1 with
          | (Some e, fs2) =>
              match fs2 !! name with
              | Some (Dir _) => (None, fs2)
              | _ => (Some e, fs2)
              end
          | r => r
          end
      end
  end.

Definition MkdirAll (name : path) (perm : N) (fs : FS) : option PathError * FS :=
  MkdirAllUp (rev name) perm fs.

(** The part of [os.FileInfo] that the copier reads. *)
Record FileInfo := mkFileInfo { Name : string; IsDir : bool }.

(** The entry of [dirname] that the key [k] stands for, if any. *)
Definition entryOf (dirname : path) (kn : path * node) : option FileInfo :=
  match last kn.1 with
  | Some name =>
      if bool_decide (kn.1 = dirname ++ [name])
      then Some (mkFileInfo name (isDir kn.2))
      else None
  | None => None
  end.

Definition byName (e1 e2 : FileInfo) : Prop := String.le (Name e1) (Name e2).

#[global] Instance byName_dec : RelDecision byName.
Proof. intros e1 e2. unfold byName. apply _. Defined.

(** [ioutil.ReadDir]: the entries of the directory, sorted by name. *)
Definition ReadDir (dirname : path) (fs : FS) : PathError + list FileInfo :=
  match fs !! dirname with
  | None => inl (mkPathError "open" dirname (absent fs dirname))
  | Some (File _ _) => inl (mkPathError "readdirent" dirname ENOTDIR)
  | Some (Dir _) =>
      inr (merge_sort byName (omap (entryOf dirname) (map_to_list fs)))
  end.

(** [os.Open]: the handle of a file opened for reading is its path. *)
Definition Open (name : path) (fs : FS) : PathError + path :=
  match fs !! name with
  | Some _ => inr name
  | None => inl (mkPathError "open" name (absent fs name))
  end.

(** Reading an open file to its end ([io.Copy]'s source side,
    [ioutil.ReadAll]). *)
Definition Read (file : path) (fs : FS) : PathError + string :=
  match fs !! file with
  | Some (File _ data) => inr data
  | _ => inl (mkPathError "read" file EISDIR)
  end.

(** [os.OpenFile(name, O_RDWR|O_CREATE|O_EXCL, perm)]: the file must not
    exist; it is created empty. *)
Definition OpenFileExcl (name : path) (perm : N) (fs : FS) : PathError + FS :=
  match fs !! name with
  | Some _ => inl (mkPathError "open" name EEXIST)
  | None =>
      match name, fs !! removelast name with
      | _ :: _, Some (Dir _) => inr (<[name := File perm EmptyString]> fs)
      | _, _ => inl (mkPathError "open" name (absent fs name))
      end
  end.

(** Writing to an open file appends at its end. *)
Definition Write (file : path) (bytes : string) (fs : FS) : FS :=
  alter (λ n, match n with
              | File perm data => File perm (data +:+ bytes)
              | Dir perm => Dir perm
              end) file fs.

End OS.

(** ** The copier (part_000, lines 17-167) *)

Import OS.

Abbreviation TemplateData := (gmap string string).

(** The errors that [CopyDir2] and [copyFile] build, by the message that
    wraps them. *)
Inductive error :=
| ErrPath (e : PathError)
| ErrNotADirectory (p : path)
| ErrMakingDstDir (e : PathError)
| ErrParsingFileName (src : path) (e : Template.parse_error)
| ErrExecutingFileName (src : path) (data : TemplateData) (e : Template.exec_error)
| ErrOpeningSrcFile (e : PathError)
| ErrCreatingDstFile (e : PathError)
| ErrParsingTemplate (src : path) (e : Template.parse_error)
| ErrExecutingTemplate (src : path) (data : TemplateData) (e : Template.exec_error).

(** What a call comes to: [Done] is Go's [nil] error. [OutOfFuel] belongs
    to the recursion bound of [CopyDir2], [Unmodelled] to templates outside
    the fragment of [Template]. *)
Inductive outcome :=
| Done
| Failed (err : error)
| OutOfFuel
| Unmodelled.

Definition perm0770 : N := 0x1f8.
Definition perm0660 : N := 0x1b0.

(** [copyFile] (lines 136-167). *)
Definition copyFile (srcPath dstPath : path) (tmplData : TemplateData) (fs : FS)
  : outcome * FS :=
  match Open srcPath fs with
  | inl e => (Failed (ErrOpeningSrcFile e), fs)
  | inr srcFile =>
      match OpenFileExcl dstPath perm0660 fs with
      | inl e => (Failed (ErrCreatingDstFile e), fs)
      | inr fs1 =>
          if (size tmplData =? 0)%nat then
            match Read srcFile fs1 with
            | inl e => (Failed (ErrPath e), fs1)
            | inr bytes => (Done, Write dstPath bytes fs1)
            end
          else
            match Read srcFile fs1 with
            | inl e => (Failed (ErrPath e), fs1)
            | inr buf =>
                match Template.Parse buf with
                | Template.ParseError e =>
                    (Failed (ErrParsingTemplate srcPath e), fs1)
                | Template.OutsideFragment => (Unmodelled, fs1)
                | Template.Parsed tmpl =>
                    match Template.Execute tmpl tmplData with
                    | Template.EscapeOutsideFragment => (Unmodelled, fs1)
                    | Template.Wrote out None => (Done, Write dstPath out fs1)
                    | Template.Wrote out (Some e) =>
                        (Failed (ErrExecutingTemplate srcPath tmplData e),
                         Write dstPath out fs1)
                    end
                end
            end
      end
  end.

(** The precondition loop of [CopyDir2] (lines 82-90). *)
Fixpoint checkDirs (dirs : list path) (dst : path) (fs : FS) : option error :=
  match dirs with
  | [] => None
  | dir :: rest =>
      match Stat dir fs with
      | inl e => Some (ErrPath e)
      | inr fi =>
          if negb (isDir fi) then Some (ErrNotADirectory dst)
          else checkDirs rest dst fs
      end
  end.

(** The name of the destination file (lines 109-126): the entry's name, or
    the name rendered as a template. *)
Definition fileName (src : path) (name : string) (tmplData : TemplateData)
  : outcome + string :=
  if negb (size tmplData =? 0)%nat then
    let name := GoStrings.TrimSuffix name ".template" in
    match Template.Parse name with
    | Template.ParseError e => inl (Failed (ErrParsingFileName src e))
    | Template.OutsideFragment => inl Unmodelled
    | Template.Parsed tmpl =>
        match Template.Execute tmpl tmplData with
        | Template.EscapeOutsideFragment => inl Unmodelled
        | Template.Wrote _ (Some e) =>
            inl (Failed (ErrExecutingFileName src tmplData e))
        | Template.Wrote buf None => inr buf
        end
    end
  else inr name.

(** A [for ... range] over the entries whose body may return early. *)
Fixpoint forEntries (body : FileInfo → FS → outcome * FS)
    (entries : list FileInfo) (fs : FS) : outcome * FS :=
  match entries with
  | [] => (Done, fs)
  | e :: rest =>
      match body e fs with
      | (Done, fs') => forEntries body rest fs'
      | r => r
      end
  end.

(** The body of the loop over [srcEntries] (lines 103-130), given the
    recursive call. *)
Definition copyEntry (recurse : path → path → FS → outcome * FS)
    (src tgtDir : path) (tmplData : TemplateData) (e : FileInfo) (fs : FS)
  : outcome * FS :=
  let src := Filepath.Join src (Name e) in
  if IsDir e then recurse src tgtDir fs
  else
    match fileName src (Name e) tmplData with
    | inl o => (o, fs)
    | inr name => copyFile src (Filepath.Join tgtDir name) tmplData fs
    end.

(** [CopyDir2] (lines 81-134). The recursion follows the directory tree in
    the store, which the call itself extends; [fuel] bounds its depth. *)
Fixpoint CopyDir2 (fuel : nat) (src dst : path) (rename : RenameFn)
    (tmplData : TemplateData) (fs : FS) : outcome * FS :=
  match fuel with
  | 0 => (OutOfFuel, fs)
  | S fuel' =>
      match checkDirs [src; dst] dst fs with
      | Some e => (Failed e, fs)
      | None =>
          let renamedDir := rename (Filepath.Base src) in
          let tgtDir := Filepath.Join dst renamedDir in
          match MkdirAll tgtDir perm0770 fs with
          | (Some e, fs1) => (Failed (ErrMakingDstDir e), fs1)
          | (None, fs1) =>
              match ReadDir src fs1 with
              | inl e => (Failed (ErrPath e), fs1)
              | inr srcEntries =>
                  forEntries
                    (copyEntry (λ src' dst', CopyDir2 fuel' src' dst' rename tmplData)
                       src tgtDir tmplData)
                    srcEntries fs1
              end
          end
      end
  end.

(** ** Directory trees

    What the spec calls a directory tree: a regular file with its bytes, or
    a directory with its named entries. [holds fs p t] reads the tree [t]
    off the store at [p]; [mirror rename t] is the copy the spec asks for:
    the same shape and bytes, every directory entry renamed, every node
    with the mode the copier creates it with. *)

#[local] Unset Elimination Schemes.
Inductive tree :=
| TFile (perm : N) (data : string)
| TDir (perm : N) (entries : list (string * tree)).
#[local] Set Elimination Schemes.

Definition isTDir (t : tree) : bool :=
  match t with TDir _ _ => true | TFile _ _ => false end.

(** The names below [dirname], in the order of the store. *)
Definition children (dirname : path) (fs : FS) : list string :=
  Name <$> omap (entryOf dirname) (map_to_list fs).

Fixpoint holds (fs : FS) (p : path) (t : tree) : Prop :=
  match t with
  | TFile perm data => fs !! p = Some (File perm data)
  | TDir perm entries =>
      fs !! p = Some (Dir perm) ∧
      children p fs ≡ₚ entries.*1 ∧
      (fix each (es : list (string * tree)) : Prop :=
         match es with
         | [] => True
         | e :: es' => holds fs (p ++ [e.1]) e.2 ∧ each es'
         end) entries
  end.

(** The name an entry is copied under: directories are renamed, files keep
    their name (no template data). *)
Definition targetName (rename : RenameFn) (e : string * tree) : string :=
  if isTDir e.2 then rename e.1 else e.1.

Fixpoint mirror (rename : RenameFn) (t : tree) : tree :=
  match t with
  | TFile _ data => TFile perm0660 data
  | TDir _ entries =>
      TDir perm0770
        (map (λ e, (targetName rename e, mirror rename e.2)) entries)
  end.

Fixpoint height (t : tree) : nat :=
  match t with
  | TFile _ _ => 0
  | TDir _ entries => S (foldr (λ e h, height e.2 `max` h) 0 entries)
  end.

(** The names of the tree are path components, before and after renaming,
    and the entries of a directory keep distinct names when renamed. *)
Fixpoint copyable (rename : RenameFn) (t : tree) : bool :=
  match t with
  | TFile _ _ => true
  | TDir _ entries =>
      bool_decide (NoDup (targetName rename <$> entries)) &&
      forallb (λ e, Filepath.isName e.1 && Filepath.isName (targetName rename e) &&
                    copyable rename e.2) entries
  end.

(** ** Predicates on stores and trees *)

(** [p] exists and is a directory. *)
Definition dirAt (fs : FS) (p : path) : bool :=
  match fs !! p with
  | Some (Dir _) => true
  | _ => false
  end.

(** The nodes that the copier creates, and a store that grew by such nodes
    only. *)
Definition createdByCopier (n : node) : Prop :=
  n = Dir perm0770 ∨ ∃ data, n = File perm0660 data.

Definition grows (fs fs' : FS) : Prop :=
  fs ⊆ fs' ∧ ∀ p n, fs !! p = None → fs' !! p = Some n → createdByCopier n.

(** The directory that the entries of [src/rel] are copied into: [rename]
    is applied to the base of [src] and to every component of [rel]. *)
Definition targetDir (rename : RenameFn) (dst src : path) (rel : list string) : path :=
  foldl (λ tgt d, Filepath.Join tgt (rename d))
    (Filepath.Join dst (rename (Filepath.Base src))) rel.

(** Every one of [names] is a path component. *)
Definition isNames (names : list string) : Prop :=
  Forall (λ s, Filepath.isName s = true) names.

(** The target directory [tgt] while the entries of a source directory are
    copied into it: the entries named in [done] have their mirror image
    below [tgt], nothing else is below [tgt], and the rest of the store is
    as it was in [fs]. *)
Definition copiedSoFar (rename : RenameFn) (fs fs_i : FS) (tgt : path)
    (entries : list (string * tree)) (done : list string) : Prop :=
  (∀ q, ¬ (tgt `prefix_of` q) → fs_i !! q = fs !! q) ∧
  fs_i !! tgt = Some (Dir perm0770) ∧
  (∀ e, e ∈ entries → e.1 ∈ done →
     holds fs_i (tgt ++ [targetName rename e]) (mirror rename e.2)) ∧
  (∀ q, tgt `prefix_of` q → is_Some (fs_i !! q) →
     q = tgt ∨
     ∃ e, e ∈ entries ∧ e.1 ∈ done ∧ (tgt ++ [targetName rename e]) `prefix_of` q).

(** Induction on a tree, with the property for every entry of a
    directory. *)
Section tree_induction.
Variable P : tree → Prop.
Hypothesis P_file : ∀ perm data, P (TFile perm data).
Hypothesis P_dir :
  ∀ perm entries, Forall (λ e, P e.2) entries → P (TDir perm entries).

Fixpoint tree_ind (t : tree) : P t :=
  match t with
  | TFile perm data => P_file perm data
  | TDir perm entries =>
      P_dir perm entries
        ((fix each (es : list (string * tree)) : Forall (λ e, P e.2) es :=
            match es with
            | [] => List.Forall_nil _
            | e :: es' => List.Forall_cons _ e es' (tree_ind e.2) (each es')
            end) entries)
  end.
End tree_induction.

(** ** Stores used as examples *)

(** A small store: [/src] with one regular file, and a directory [/dst]. *)
Definition fsNotes : FS :=
  list_to_map
    [ ([], Dir 0x1ed); (["src"], Dir 0x1ed); (["dst"], Dir 0x1ed);
      (["src"; "note-{{.who}}.txt"], File 0x1a4 "to {{.who}}") ].

(** The input of the spec's example: the placeholders are written without
    the leading dot. *)
Definition fsFoo : FS :=
  list_to_map
    [ ([], Dir 0x1ed); (["src"], Dir 0x1ed); (["dst"], Dir 0x1ed);
      (["src"; "foo-{{bar}}.template"], File 0x1a4 "hello {{bar}}") ].

(** The same input in the template syntax of Go: a field of the data is
    [.bar]. *)
Definition fsFooDot : FS :=
  list_to_map
    [ ([], Dir 0x1ed); (["src"], Dir 0x1ed); (["dst"], Dir 0x1ed);
      (["src"; "foo-{{.bar}}.template"], File 0x1a4 "hello {{.bar}}") ].

(** A letter whose text refers to a key that the data does not have. *)
Definition fsLetter : FS :=
  list_to_map
    [ ([], Dir 0x1ed); (["src"], Dir 0x1ed); (["dst"], Dir 0x1ed);
      (["src"; "letter"], File 0x1a4 "Dear {{.name}}, {{.nope}} bye") ].

(** The destination already holds a file of that name. *)
Definition fsTaken : FS :=
  list_to_map
    [ ([], Dir 0x1ed); (["src"], Dir 0x1ed); (["dst"], Dir 0x1ed);
      (["src"; "a"], File 0x1a4 "new");
      (["dst"; "src"], Dir 0x1ed);
      (["dst"; "src"; "a"], File 0x1a4 "old") ].

(** A source tree with a nested [dot.git] directory, and its description. *)
Definition fsRepo : FS :=
  list_to_map
    [ ([], Dir 0x1ed); (["src"], Dir 0x1ed); (["dst"], Dir 0x1ed);
      (["src"; "README"], File 0x1a4 "hello");
      (["src"; "dot.git"], Dir 0x1c0);
      (["src"; "dot.git"; "config"], File 0x180 "[core]") ].

Definition treeRepo : tree :=
  TDir 0x1ed
    [ ("README", TFile 0x1a4 "hello");
      ("dot.git", TDir 0x1c0 [ ("config", TFile 0x180 "[core]") ]) ].

(** ** The command (cmd/copydir/main.go) *)

(** The error of [makeTemplateData]: ["missing '=' in %s"]. *)
Inductive usageError :=
| ErrMissingEquals (kv : string).

(** [makeTemplateData] (lines 79-91): the loop over [keyvals], from the map
    built so far. On a string without ['='] the map built so far is returned
    with the error. *)
Fixpoint makeTemplateDataFrom (data : TemplateData) (keyvals : list string)
  : TemplateData * option usageError :=
  match keyvals with
  | [] => (data, None)
  | kv :: rest =>
      match GoStrings.Index kv "=" with
      | None => (data, Some (ErrMissingEquals kv))
      | Some pos =>
          let key := GoStrings.take pos kv in
          let value := GoStrings.drop (pos + 1) kv in
          makeTemplateDataFrom (<[key := value]> data) rest
      end
  end.

(** [s] holds no ['=']. *)
Definition noEquals (s : string) : bool :=
  Template.allb (λ c, negb (Ascii.eqb c "="%char)) s.

Definition makeTemplateData (keyvals : list string)
  : TemplateData * option usageError :=
  makeTemplateDataFrom ∅ keyvals.

(** The fields of [config] that [run] reads once the arguments are bound;
    the two directories are given as resolved paths. *)
Record config := mkConfig {
  Dot : bool;
  SrcDir : path;
  DstDir : path;
  KeyVals : list string
}.

(** [run] from the bound configuration on (lines 62-75): a usage error, or
    what [CopyDir2] comes to. Parsing the command line is the work of the
    docopt package and is not part of the model. *)
Definition run (fuel : nat) (app : config) (fs : FS)
  : (usageError + outcome) * FS :=
  match makeTemplateData (KeyVals app) with
  | (_, Some e) => (inl e, fs)
  | (tmplData, None) =>
      let rename := if Dot app then DotRename else IdentityRename in
      let '(o, fs') := CopyDir2 fuel (SrcDir app) (DstDir app) rename tmplData fs in
      (inr o, fs')
  end.

(** ** Well-formed stores *)

(** Every path of the store is made of path components, and every node but
    the root sits in a directory. *)
Definition wellFormed (fs : FS) : Prop :=
  ∀ p n, fs !! p = Some n →
    isNames p ∧ (p ≠ [] → dirAt fs (removelast p) = true).

(** The same, as a check over the bindings of the store. *)
Definition wellFormedb (fs : FS) : bool :=
  forallb (λ pn : path * node,
             forallb Filepath.isName pn.1 &&
             match pn.1 with
             | [] => true
             | _ :: _ => dirAt fs (removelast pn.1)
             end) (map_to_list fs).

(** ** The working directory of a test (part_000, lines 179-199)

    What [Chdir] uses of the process and of a [*testing.T]: the working
    directory, and the functions registered with [t.Cleanup], the last one
    first. A directory is named by its full path. [t.Fatal] ends the
    function that calls it; the value it is called with is what the model
    returns. *)

Module Process.

(** [os.Getwd]: fails when the working directory is gone. *)
Definition Getwd (cwd : path) (fs : FS) : Errno + path :=
  match fs !! cwd with
  | Some (Dir _) => inr cwd
  | _ => inl ENOENT
  end.

(** [os.Chdir]. *)
Definition Chdir (dir : path) (fs : FS) : option PathError :=
  match fs !! dir with
  | Some (Dir _) => None
  | Some (File _ _) => Some (mkPathError "chdir" dir ENOTDIR)
  | None => Some (mkPathError "chdir" dir (absent fs dir))
  end.

End Process.

(** The three calls of [t.Fatal] in [Chdir]. *)
Inductive fatal :=
| FatalGetwd (e : Errno)
| FatalCleanup (e : PathError)
| FatalChdir (e : PathError).

(** A cleanup function runs in the store of its time and may move the
    process. *)
Definition cleanup : Type := FS → path → option fatal * path.

(** The function that [Chdir] registers (lines 190-194). *)
Definition restore (cwd : path) : cleanup :=
  λ fs now,
    match Process.Chdir cwd fs with
    | Some e => (Some (FatalCleanup e), now)
    | None => (None, cwd)
    end.

(** [Chdir] (lines 182-199): the cleanups of [t] and the working directory
    after the call, and the [t.Fatal] that ended it, if any. *)
Definition Chdir (t : list cleanup) (dir : path) (fs : FS) (now : path)
  : option fatal * list cleanup * path :=
  match Process.Getwd now fs with
  | inl e => (Some (FatalGetwd e), t, now)
  | inr cwd =>
      let t := restore cwd :: t in
      match Process.Chdir dir fs with
      | Some e => (Some (FatalChdir e), t, now)
      | None => (None, t, dir)
      end
  end.

(** The end of a test: the cleanups are called, the last registered first.
    A [t.Fatal] in one of them does not keep the others from running. *)
Fixpoint runCleanup (t : list cleanup) (fs : FS) (now : path)
  : list fatal * path :=
  match t with
  | [] => ([], now)
  | f :: rest =>
      let '(e, now1) := f fs now in
      let '(es, now2) := runCleanup rest fs now1 in
      (match e with Some e => e :: es | None => es end, now2)
  end.

(** A test that calls [Chdir] for one directory after the other, each call
    in the store of its time, until a [t.Fatal] ends it. *)
Fixpoint chdirs (calls : list (path * FS)) (t : list cleanup) (now : path)
  : option fatal * list cleanup * path :=
  match calls with
  | [] => (None, t, now)
  | (dir, fs) :: rest =>
      match Chdir t dir fs now with
      | (None, t', now') => chdirs rest t' now'
      | r => r
      end
  end.

(** The cleanups end in [cwd0] from wherever they start, or there is none
    and the process is in [cwd0]. *)
Definition endsIn (fs' : FS) (cwd0 : path) (t : list cleanup) (now : path) : Prop :=
  (∀ p, (runCleanup t fs' p).2 = cwd0) ∨ (t = [] ∧ now = cwd0).

(** Every cleanup runs without [t.Fatal], from wherever it starts. *)
Definition quiet (fs' : FS) (t : list cleanup) : Prop :=
  ∀ p, (runCleanup t fs' p).1 = [].

(** * Properties *)

#[local] Arguments String.app !_ _ / : simpl nomatch.

(** ** Strings *)

Section strings_facts.
Import GoStrings.

Lemma take_app_length (a b : string) : take (String.length a) (a +:+ b) = a.
Proof. induction a as [|c a IH]; simpl; [by destruct b | by rewrite IH]. Qed.

Lemma drop_app_length (a b : string) : drop (String.length a) (a +:+ b) = b.
Proof. induction a as [|c a IH]; simpl; done. Qed.

Lemma app_empty_r (s : string) : s +:+ EmptyString = s.
Proof. induction s as [|c s IH]; simpl; [done | by rewrite IH]. Qed.

Lemma take_drop (n : nat) (s : string) : s = take n s +:+ drop n s.
Proof.
  revert s. induction n as [|n IH]; intros s; [done|].
  destruct s as [|c s]; [done|]. simpl. f_equal. apply IH.
Qed.


Lemma drop_add (n m : nat) (s : string) : drop (n + m) s = drop m (drop n s).
Proof.
  revert s. induction n as [|n IH]; intros s; simpl; [done|].
  destruct s; [by destruct m | apply IH].
Qed.

Lemma HasPrefix_spec (s p : string) :
  HasPrefix s p = true ↔ ∃ r, s = p +:+ r.
Proof.
  revert s. induction p as [|c p IH]; intros s; simpl.
  - split; [eauto | done].
  - destruct s as [|d s].
    + split; [done | by intros [r ?]].
    + destruct (Ascii.eqb_spec c d) as [->|Hne].
      * rewrite IH. split; intros [r Hr]; exists r; simpl in *; congruence.
      * split; [done | intros [r Hr]; simpl in *; congruence].
Qed.

Lemma Index_None (s sub : string) :
  (∀ a b, s ≠ a +:+ sub +:+ b) → Index s sub = None.
Proof.
  induction s as [|c s IH]; intros Hno; simpl.
  - destruct (HasPrefix EmptyString sub) eqn:Hp; [|done].
    apply HasPrefix_spec in Hp as [r Hr]. by destruct (Hno EmptyString r).
  - destruct (HasPrefix (String c s) sub) eqn:Hp.
    + apply HasPrefix_spec in Hp as [r Hr]. by destruct (Hno EmptyString r).
    + rewrite IH; [done|]. intros a b ->. by apply (Hno (String c a) b).
Qed.

Lemma Replace_once (s old new : string) :
  old ≠ new →
  Replace s old new 1 =
    match Index s old with
    | None => s
    | Some j => take j s +:+ new +:+ drop (j + String.length old) s
    end.
Proof.
  intros Hne. simpl. destruct (String.eqb_spec old new); [done|].
  by destruct (Index s old).
Qed.


End strings_facts.

(** ** The rename policies *)




(** ** The precondition check *)

Lemma checkDirs_ok (src dst : path) (fs : FS) :
  dirAt fs src = true → dirAt fs dst = true → checkDirs [src; dst] dst fs = None.
Proof.
  unfold dirAt, checkDirs, Stat. intros Hs Hd.
  destruct (fs !! src) as [[]|]; try done. by destruct (fs !! dst) as [[]|].
Qed.

Lemma checkDirs_fails (src dst : path) (fs : FS) :
  dirAt fs src = false ∨ dirAt fs dst = false →
  ∃ e, checkDirs [src; dst] dst fs = Some e.
Proof.
  unfold dirAt, checkDirs, Stat. intros H.
  destruct (fs !! src) as [[]|]; simpl; eauto.
  destruct (fs !! dst) as [[]|]; simpl; eauto. by destruct H.
Qed.

Lemma CopyDir2_unfold (fuel : nat) (src dst : path) (rename : RenameFn)
    (tmplData : TemplateData) (fs : FS) :
  CopyDir2 (S fuel) src dst rename tmplData fs =
    match checkDirs [src; dst] dst fs with
    | Some e => (Failed e, fs)
    | None =>
        let tgtDir := Filepath.Join dst (rename (Filepath.Base src)) in
        match MkdirAll tgtDir perm0770 fs with
        | (Some e, fs1) => (Failed (ErrMakingDstDir e), fs1)
        | (None, fs1) =>
            match ReadDir src fs1 with
            | inl e => (Failed (ErrPath e), fs1)
            | inr srcEntries =>
                forEntries
                  (copyEntry (λ src' dst', CopyDir2 fuel src' dst' rename tmplData)
                     src tgtDir tmplData)
                  srcEntries fs1
            end
        end
    end.
Proof. reflexivity. Qed.

(** C8: when [src] or [dst] is missing or is not a directory, [CopyDir2]
    returns an error and the filesystem is as it was: nothing has been
    created. *)
Theorem CopyDir2_precondition_no_mutation
    (fuel : nat) (src dst : path) (rename : RenameFn)
    (tmplData : TemplateData) (fs : FS) :
  dirAt fs src = false ∨ dirAt fs dst = false →
  ∃ e, CopyDir2 (S fuel) src dst rename tmplData fs = (Failed e, fs).
Proof.
  intros H. destruct (checkDirs_fails src dst fs H) as [e He].
  exists e. by rewrite CopyDir2_unfold, He.
Qed.

Lemma CopyDir2_precondition_no_mutation_witness :
  ∃ e, CopyDir2 1 ["src"; "note-{{.who}}.txt"] ["dst"] IdentityRename ∅ fsNotes
       = (Failed e, fsNotes).
Proof.
  apply CopyDir2_precondition_no_mutation. left. vm_compute. reflexivity.
Defined.

(** C4, at the input that shows the defect: when [src] is a regular file the
    error message is built from [dst], whatever [dst] is. *)
Theorem CopyDir2_not_a_directory_names_dst
    (fuel : nat) (src dst : path) (rename : RenameFn)
    (tmplData : TemplateData) (fs : FS) (perm : N) (data : string) :
  fs !! src = Some (File perm data) →
  CopyDir2 (S fuel) src dst rename tmplData fs = (Failed (ErrNotADirectory dst), fs).
Proof. intros H. simpl. unfold Stat. by rewrite H. Qed.

Lemma CopyDir2_not_a_directory_names_dst_witness :
  dirAt fsNotes ["dst"] = true ∧
  CopyDir2 1 ["src"; "note-{{.who}}.txt"] ["dst"] IdentityRename ∅ fsNotes
  = (Failed (ErrNotADirectory ["dst"]), fsNotes).
Proof.
  split; [vm_compute; reflexivity|].
  apply (CopyDir2_not_a_directory_names_dst 0 _ _ _ _ _ 0x1a4 "to {{.who}}").
  vm_compute. reflexivity.
Defined.

(** ** Templates *)

Lemma size_non_empty (tmplData : TemplateData) :
  tmplData ≠ ∅ → (size tmplData =? 0)%nat = false.
Proof. intros H. apply Nat.eqb_neq. by apply map_size_non_empty_iff. Qed.

Lemma TrimSuffix_spec (s suffix : string) :
  (GoStrings.HasSuffix s suffix = false ∧ GoStrings.TrimSuffix s suffix = s) ∨
  (GoStrings.HasSuffix s suffix = true ∧ s = GoStrings.TrimSuffix s suffix +:+ suffix).
Proof.
  unfold GoStrings.TrimSuffix.
  destruct (GoStrings.HasSuffix s suffix) eqn:Hs; [right|left]; [|done].
  split; [done|]. unfold GoStrings.HasSuffix in Hs.
  apply andb_true_iff in Hs as [_ Hs]. apply String.eqb_eq in Hs.
  rewrite <- Hs at 2. apply take_drop.
Qed.

(** C6: with template data, the name of every regular file goes through the
    same steps, whether or not it ends in [.template]: the suffix is cut
    when it is there, the rest is parsed and executed as a template, and the
    file is copied under the rendered name. *)
Theorem template_processing_of_every_file_name
    (recurse : path → path → FS → outcome * FS) (src tgtDir : path)
    (tmplData : TemplateData) (name : string) (fs : FS) :
  tmplData ≠ ∅ →
  let stem := GoStrings.TrimSuffix name ".template" in
  ((GoStrings.HasSuffix name ".template" = false ∧ stem = name) ∨
   (GoStrings.HasSuffix name ".template" = true ∧ name = stem +:+ ".template")) ∧
  copyEntry recurse src tgtDir tmplData (mkFileInfo name false) fs =
    match Template.Parse stem with
    | Template.ParseError e =>
        (Failed (ErrParsingFileName (Filepath.Join src name) e), fs)
    | Template.OutsideFragment => (Unmodelled, fs)
    | Template.Parsed tmpl =>
        match Template.Execute tmpl tmplData with
        | Template.EscapeOutsideFragment => (Unmodelled, fs)
        | Template.Wrote _ (Some e) =>
            (Failed (ErrExecutingFileName (Filepath.Join src name) tmplData e), fs)
        | Template.Wrote rendered None =>
            copyFile (Filepath.Join src name) (Filepath.Join tgtDir rendered)
              tmplData fs
        end
    end.
Proof.
  intros Hne stem. split.
  - apply TrimSuffix_spec.
  - unfold copyEntry, fileName. cbn [IsDir Name].
    rewrite (size_non_empty _ Hne). cbn [negb]. fold stem.
    destruct (Template.Parse stem) as [tmpl| |]; try done.
    by destruct (Template.Execute tmpl tmplData) as [? [?|]|].
Qed.

(** The file of [fsNotes] has no [.template] suffix; its name is rendered
    all the same. *)
Lemma template_processing_of_every_file_name_witness :
  GoStrings.HasSuffix "note-{{.who}}.txt" ".template" = false ∧
  copyEntry (λ _ _ fs, (Done, fs)) ["src"] ["dst"; "src"] {[ "who" := "X" ]}
    (mkFileInfo "note-{{.who}}.txt" false) fsNotes =
  copyFile ["src"; "note-{{.who}}.txt"] ["dst"; "src"; "note-X.txt"]
    {[ "who" := "X" ]} fsNotes.
Proof.
  split; [reflexivity|].
  refine (eq_trans (proj2 (template_processing_of_every_file_name
    (λ _ _ fs, (Done, fs)) ["src"] ["dst"; "src"] {[ "who" := "X" ]}
    "note-{{.who}}.txt" fsNotes _)) _).
  - vm_compute. discriminate.
  - reflexivity.
Defined.

Example notes_rendered :
  let r := CopyDir2 1 ["src"] ["dst"] IdentityRename {[ "who" := "X" ]} fsNotes in
  r.1 = Done ∧
  r.2 !! ["dst"; "src"; "note-X.txt"] = Some (File perm0660 "to X") ∧
  r.2 !! ["dst"; "src"; "note-{{.who}}.txt"] = None.
Proof. vm_compute. done. Qed.

(** C7 as the spec states it: [{{bar}}] calls a function [bar], which is not
    defined, so the file name does not parse; the copy fails and there is no
    file [foo-X]. *)
Lemma foo_bar_without_dot_fails :
  ¬ ∃ fuel fs',
      CopyDir2 fuel ["src"] ["dst"] IdentityRename {[ "bar" := "X" ]} fsFoo
      = (Done, fs') ∧
      fs' !! ["dst"; "src"; "foo-X"] = Some (File perm0660 "hello X").
Proof.
  intros (fuel & fs' & H & _). destruct fuel as [|fuel]; [discriminate H|].
  vm_compute in H. discriminate H.
Qed.

(** C7 (amended): with template data [{"bar": "X"}] and a source file named
    [foo-{{.bar}}.template] with content [hello {{.bar}}], the copy succeeds
    and the destination holds a file named [foo-X] with content [hello X],
    and no other file. *)
Theorem foo_bar_template_rendered (fuel : nat) :
  let r := CopyDir2 (S fuel) ["src"] ["dst"] IdentityRename {[ "bar" := "X" ]}
             fsFooDot in
  r.1 = Done ∧
  r.2 !! ["dst"; "src"; "foo-X"] = Some (File perm0660 "hello X") ∧
  children ["dst"; "src"] r.2 = ["foo-X"].
Proof. vm_compute. done. Qed.

(** C9: a field is rendered through the HTML escaper, in file names and in
    file contents: the value [a<b&c] comes out as [a&lt;b&amp;c], not as its
    raw bytes. *)
Theorem template_values_are_html_escaped :
  (∀ (data : TemplateData) (key v : string),
      Template.Execute [Template.FieldNode key] (<[key := v]> data)
      = Template.Wrote (Template.htmlEscaper v) None) ∧
  Template.htmlEscaper "<" = "&lt;" ∧
  Template.htmlEscaper "&" = "&amp;" ∧
  Template.htmlEscaper "a<b&c" ≠ "a<b&c" ∧
  let fs : FS :=
    list_to_map
      [ ([], Dir 0x1ed); (["src"], Dir 0x1ed); (["dst"], Dir 0x1ed);
        (["src"; "{{.k}}.txt"], File 0x1a4 "v={{.k}}") ] in
  let r := CopyDir2 1 ["src"] ["dst"] IdentityRename {[ "k" := "a<b&c" ]} fs in
  r.1 = Done ∧
  r.2 !! ["dst"; "src"; "a&lt;b&amp;c.txt"] = Some (File perm0660 "v=a&lt;b&amp;c") ∧
  r.2 !! ["dst"; "src"; "a<b&c.txt"] = None.
Proof.
  split_and!; try (vm_compute; done).
  intros data key v. unfold Template.Execute. cbn.
  rewrite lookup_insert_eq. by rewrite app_empty_r.
Qed.

(** ** What a run leaves behind

    Every call only adds nodes: a directory created by [MkdirAll] with mode
    0770, or a regular file created in exclusive mode with mode 0660. The
    nodes that were there keep their mode and their bytes. *)

Section grows_facts.
Implicit Types (fs : FS) (p : path).

Lemma grows_refl fs : grows fs fs.
Proof. split; [done|]. intros p n H1 H2. congruence. Qed.

Lemma grows_trans fs1 fs2 fs3 : grows fs1 fs2 → grows fs2 fs3 → grows fs1 fs3.
Proof.
  intros [Hs12 Hc12] [Hs23 Hc23]. split; [by etrans|].
  intros p n H1 H3. destruct (fs2 !! p) as [m|] eqn:H2.
  - rewrite (lookup_weaken _ _ _ _ H2 Hs23) in H3. injection H3 as <-. eauto.
  - eauto.
Qed.

Lemma grows_insert fs p n :
  fs !! p = None → createdByCopier n → grows fs (<[p := n]> fs).
Proof.
  intros Hp Hn. split; [by apply insert_subseteq|].
  intros q m Hq. destruct (decide (p = q)) as [->|Hne].
  - rewrite lookup_insert_eq. by intros [= <-].
  - rewrite lookup_insert_ne by done. congruence.
Qed.

Lemma Mkdir_grows p fs : grows fs (Mkdir p perm0770 fs).2.
Proof.
  unfold Mkdir. destruct (fs !! p) eqn:Hp; [apply grows_refl|].
  destruct p as [|c p]; [apply grows_refl|].
  destruct (fs !! removelast (c :: p)) as [[]|]; try apply grows_refl.
  apply grows_insert; [done | by left].
Qed.

Lemma MkdirAllUp_grows rname fs : grows fs (MkdirAllUp rname perm0770 fs).2.
Proof.
  revert fs. induction rname as [|c rname IH]; intros fs.
  - cbn [MkdirAllUp]. destruct (fs !! rev []) as [[]|]; try apply grows_refl.
    pose proof (Mkdir_grows (rev []) fs) as Hm.
    destruct (Mkdir (rev []) perm0770 fs) as [[e|] fs2]; [|done].
    by destruct (fs2 !! rev []) as [[]|].
  - cbn [MkdirAllUp].
    destruct (fs !! rev (c :: rname)) as [[]|]; try apply grows_refl.
    specialize (IH fs).
    destruct (MkdirAllUp rname perm0770 fs) as [[e|] fs1]; [done|].
    pose proof (Mkdir_grows (rev (c :: rname)) fs1) as Hm.
    destruct (Mkdir (rev (c :: rname)) perm0770 fs1) as [[e|] fs2].
    + destruct (fs2 !! rev (c :: rname)) as [[]|]; by eapply grows_trans.
    + by eapply grows_trans.
Qed.

Lemma MkdirAll_grows p fs : grows fs (MkdirAll p perm0770 fs).2.
Proof. apply MkdirAllUp_grows. Qed.

Lemma Write_created p perm data bytes fs :
  Write p bytes (<[p := File perm data]> fs) = <[p := File perm (data +:+ bytes)]> fs.
Proof. unfold Write. by rewrite alter_insert_eq. Qed.

(** [copyFile] leaves the store as it was, or adds the destination file. *)
Lemma copyFile_store src dst (tmplData : TemplateData) fs :
  (copyFile src dst tmplData fs).2 = fs ∨
  fs !! dst = None ∧ ∃ out, (copyFile src dst tmplData fs).2 = <[dst := File perm0660 out]> fs.
Proof.
  unfold copyFile. destruct (Open src fs) as [e|srcFile]; [by left|].
  unfold OpenFileExcl. destruct (fs !! dst) eqn:Hd; [by left|].
  destruct dst as [|c dst]; [by left|].
  destruct (fs !! removelast (c :: dst)) as [[]|]; [|by left..].
  right. split; [done|].
  set (fs1 := <[c :: dst := File perm0660 EmptyString]> fs).
  assert (∀ out, Write (c :: dst) out fs1 = <[c :: dst := File perm0660 out]> fs)
    as Hw by (intros out; apply Write_created).
  destruct (size tmplData =? 0)%nat.
  - destruct (Read srcFile fs1); simpl; eauto.
  - destruct (Read srcFile fs1) as [|buf]; simpl; eauto.
    destruct (Template.Parse buf) as [tmpl| |]; simpl; eauto.
    destruct (Template.Execute tmpl tmplData) as [out [e|]|]; simpl; eauto.
Qed.

Lemma copyFile_grows src dst (tmplData : TemplateData) fs :
  grows fs (copyFile src dst tmplData fs).2.
Proof.
  destruct (copyFile_store src dst tmplData fs) as [->|[Hd [out ->]]].
  - apply grows_refl.
  - apply grows_insert; [done|]. right. eauto.
Qed.

Lemma forEntries_grows body entries fs :
  (∀ e fs, grows fs (body e fs).2) → grows fs (forEntries body entries fs).2.
Proof.
  intros Hbody. revert fs. induction entries as [|e entries IH]; intros fs.
  - apply grows_refl.
  - simpl. specialize (Hbody e fs).
    destruct (body e fs) as [[] fs1]; try done.
    eapply grows_trans; [done | apply IH].
Qed.

Lemma copyEntry_grows recurse src tgtDir (tmplData : TemplateData) e fs :
  (∀ s d fs, grows fs (recurse s d fs).2) →
  grows fs (copyEntry recurse src tgtDir tmplData e fs).2.
Proof.
  intros Hrec. unfold copyEntry. destruct (IsDir e); [apply Hrec|].
  destruct (fileName _ _ _); [apply grows_refl | apply copyFile_grows].
Qed.

Lemma CopyDir2_grows fuel src dst rename (tmplData : TemplateData) fs :
  grows fs (CopyDir2 fuel src dst rename tmplData fs).2.
Proof.
  revert src dst fs. induction fuel as [|fuel IH]; intros src dst fs.
  - apply grows_refl.
  - rewrite CopyDir2_unfold.
    destruct (checkDirs _ _ _); [apply grows_refl|]. cbn zeta.
    pose proof (MkdirAll_grows
      (Filepath.Join dst (rename (Filepath.Base src))) fs) as Hm.
    destruct (MkdirAll _ _ _) as [[e|] fs1]; [done|].
    destruct (ReadDir src fs1) as [e|entries]; [done|].
    eapply grows_trans; [done|]. apply forEntries_grows.
    intros e fs2. by apply copyEntry_grows.
Qed.

End grows_facts.

(** ** Reading a directory *)

Section ReadDir_facts.
Implicit Types (fs : FS) (p : path).

Lemma entryOf_Some p k n e :
  entryOf p (k, n) = Some e ↔ k = p ++ [Name e] ∧ IsDir e = isDir n.
Proof.
  unfold entryOf. simpl. split.
  - destruct (last k) as [name|] eqn:Hl; [|done].
    case_bool_decide; [|done]. by intros [= <-].
  - intros [-> Hd]. rewrite last_snoc, bool_decide_true by done.
    destruct e. simpl in *. by subst.
Qed.

Lemma elem_of_entries p fs e :
  e ∈ omap (entryOf p) (map_to_list fs) ↔
  ∃ n, fs !! (p ++ [Name e]) = Some n ∧ IsDir e = isDir n.
Proof.
  rewrite list_elem_of_omap. split.
  - intros [[k n] [Hk He]]. apply entryOf_Some in He as [-> Hd].
    apply elem_of_map_to_list in Hk. eauto.
  - intros [n [Hn Hd]]. exists (p ++ [Name e], n). split.
    + by apply elem_of_map_to_list.
    + by apply entryOf_Some.
Qed.

Lemma ReadDir_dir p fs perm :
  fs !! p = Some (Dir perm) →
  ∃ entries, ReadDir p fs = inr entries ∧
             entries ≡ₚ omap (entryOf p) (map_to_list fs).
Proof.
  intros Hp. unfold ReadDir. rewrite Hp. eexists. split; [done|].
  apply merge_sort_Permutation.
Qed.

Lemma ReadDir_elem p fs perm name n :
  fs !! p = Some (Dir perm) → fs !! (p ++ [name]) = Some n →
  ∃ entries, ReadDir p fs = inr entries ∧ mkFileInfo name (isDir n) ∈ entries.
Proof.
  intros Hp Hn. destruct (ReadDir_dir p fs perm Hp) as (entries & Hr & Hperm).
  exists entries. split; [done|]. rewrite Hperm. apply elem_of_entries.
  exists n. done.
Qed.

End ReadDir_facts.

(** ** Reaching a file *)

Section reach.
Implicit Types (fs : FS) (p : path).

Lemma rev_app_app (a b c : string) :
  String.rev_app a b +:+ c = String.rev_app a (b +:+ c).
Proof. revert b. induction a as [|x a IH]; intros b; simpl; [done|]. by rewrite IH. Qed.

Lemma split_name (acc s : string) :
  Template.allb (λ c, negb (Ascii.eqb c "/"%char)) s = true →
  Filepath.split acc s = [String.rev acc +:+ s].
Proof.
  revert acc. induction s as [|c s IH]; intros acc Hs; simpl.
  - by rewrite app_empty_r.
  - simpl in Hs. apply andb_true_iff in Hs as [Hc Hs].
    destruct (Ascii.eqb c "/"); [done|]. rewrite IH by done.
    unfold String.rev. cbn [String.rev_app]. by rewrite !rev_app_app.
Qed.

Lemma Join_name p name :
  Filepath.isName name = true → Filepath.Join p name = p ++ [name].
Proof.
  unfold Filepath.isName, Filepath.Join. intros H.
  repeat (apply andb_true_iff in H as [H ?]).
  rewrite split_name by done. simpl. unfold Filepath.enter.
  apply negb_true_iff in H. rewrite H.
  by repeat match goal with
    | H : negb _ = true |- _ => apply negb_true_iff in H; rewrite H
    end.
Qed.

Lemma isNames_last (rel : list string) name :
  isNames (rel ++ [name]) → Filepath.isName name = true.
Proof. unfold isNames. rewrite Forall_app, Forall_singleton. by intros [_ ?]. Qed.

Lemma Base_snoc p name : Filepath.Base (p ++ [name]) = name.
Proof. unfold Filepath.Base. by rewrite last_snoc. Qed.

Lemma dirAt_weaken fs fs' p : fs ⊆ fs' → dirAt fs p = true → dirAt fs' p = true.
Proof.
  unfold dirAt. intros Hs. destruct (fs !! p) as [[]|] eqn:Hp; try done.
  by rewrite (lookup_weaken _ _ _ _ Hp Hs).
Qed.

Lemma forEntries_not_done body entries fs0 fs x :
  x ∈ entries → fs0 ⊆ fs →
  (∀ e fs, fs ⊆ (body e fs).2) →
  (∀ fs, fs0 ⊆ fs → (body x fs).1 ≠ Done) →
  (forEntries body entries fs).1 ≠ Done.
Proof.
  intros Hx Hs Hbody Hnot. revert fs Hs.
  induction entries as [|e entries IH]; intros fs Hs; [by apply elem_of_nil in Hx|].
  simpl. specialize (Hbody e fs).
  destruct (body e fs) as [o fs1] eqn:Hb.
  apply elem_of_cons in Hx as [->|Hx].
  - specialize (Hnot fs Hs). rewrite Hb in Hnot. by destruct o.
  - destruct o; try done. apply IH; [done|]. by etrans.
Qed.

(** A regular file below [src], and directories all the way to it, are
    reached by the walk unless it stops before: when the step that copies
    the file cannot succeed, the call does not succeed. *)
Lemma CopyDir2_reaches fuel src dst rename (tmplData : TemplateData) fs rel name :
  isNames (rel ++ [name]) →
  (∀ i : nat, (i ≤ length rel)%nat → dirAt fs (src ++ take i rel) = true) →
  (∃ perm bytes, fs !! (src ++ rel ++ [name]) = Some (File perm bytes)) →
  (∀ recurse fs', fs ⊆ fs' →
     (copyEntry recurse (src ++ rel) (targetDir rename dst src rel) tmplData
        (mkFileInfo name false) fs').1 ≠ Done) →
  (CopyDir2 fuel src dst rename tmplData fs).1 ≠ Done.
Proof.
  revert src dst fs rel.
  induction fuel as [|fuel IH]; intros src dst fs rel Hnames Hdirs Hfile Hstep;
    [done|].
  rewrite CopyDir2_unfold. destruct (checkDirs _ _ _); [done|]. cbn zeta.
  set (tgtDir := Filepath.Join dst (rename (Filepath.Base src))).
  pose proof (MkdirAll_grows tgtDir fs) as [Hs1 _].
  destruct (MkdirAll tgtDir perm0770 fs) as [[e|] fs1]; [done|]. simpl in Hs1.
  pose proof (Hdirs 0 (Nat.le_0_l _)) as Hsrc. rewrite take_0, app_nil_r in Hsrc.
  apply (dirAt_weaken _ _ _ Hs1) in Hsrc. unfold dirAt in Hsrc.
  destruct (fs1 !! src) as [[perm|]|] eqn:Hsrc1; [|discriminate Hsrc..].
  assert (∀ e fs, fs ⊆ (copyEntry (λ src' dst', CopyDir2 fuel src' dst' rename tmplData)
                         src tgtDir tmplData e fs).2) as Hbody.
  { intros e fs2. apply copyEntry_grows. intros. apply CopyDir2_grows. }
  destruct rel as [|d rel].
  - destruct Hfile as (fperm & bytes & Hfile). rewrite app_nil_l in Hfile.
    destruct (ReadDir_elem src fs1 perm name (File fperm bytes) Hsrc1
                (lookup_weaken _ _ _ _ Hfile Hs1)) as (entries & -> & Hin).
    eapply forEntries_not_done; [done..|].
    intros fs2 Hs2. specialize (Hstep
      (λ src' dst', CopyDir2 fuel src' dst' rename tmplData) fs2).
    rewrite app_nil_r in Hstep. apply Hstep. by etrans.
  - pose proof (Hdirs 1 ltac:(simpl; lia)) as Hd.
    change (dirAt fs (src ++ [d]) = true) in Hd.
    apply (dirAt_weaken _ _ _ Hs1) in Hd. unfold dirAt in Hd.
    destruct (fs1 !! (src ++ [d])) as [[dperm|]|] eqn:Hd1; [|discriminate Hd..].
    destruct (ReadDir_elem src fs1 perm d (Dir dperm) Hsrc1 Hd1)
      as (entries & -> & Hin).
    eapply forEntries_not_done; [done..|].
    intros fs2 Hs2. unfold copyEntry. cbn [IsDir Name isDir].
    apply Forall_cons in Hnames as [Hdn Hnames].
    rewrite Join_name by done.
    apply (IH _ _ _ rel); [done|..].
    + intros i Hi. rewrite <- app_assoc. simpl.
      apply (dirAt_weaken fs); [by etrans|]. apply (Hdirs (S i)). simpl. lia.
    + destruct Hfile as (fperm & bytes & Hfile). exists fperm, bytes.
      rewrite <- app_assoc. simpl. apply (lookup_weaken fs); [done | by etrans].
    + intros recurse fs3 Hs3. rewrite <- app_assoc. simpl.
      unfold targetDir. rewrite Base_snoc.
      apply (Hstep recurse fs3). by repeat (etrans; [done|]).
Qed.

End reach.

(** ** The file-copy step *)

Section copyFile_facts.
Implicit Types (fs : FS) (p : path).

Lemma execute_missing_key tmpl (tmplData : TemplateData) key :
  Template.FieldNode key ∈ tmpl → tmplData !! key = None →
  ∃ out e, Template.execute tmpl tmplData = (out, Some e).
Proof.
  intros Hin Hkey. induction tmpl as [|n tmpl IH]; [by apply elem_of_nil in Hin|].
  apply elem_of_cons in Hin as [<-|Hin].
  - simpl. rewrite Hkey. eauto.
  - destruct (IH Hin) as (out & e & Hex). destruct n as [t|k]; simpl.
    + rewrite Hex. eauto.
    + destruct (tmplData !! k); [|eauto]. rewrite Hex. eauto.
Qed.

Lemma fileName_not_done src name (tmplData : TemplateData) :
  fileName src name tmplData ≠ inl Done.
Proof.
  unfold fileName. destruct (negb _); [|done].
  destruct (Template.Parse _) as [tmpl| |]; try done.
  by destruct (Template.Execute tmpl tmplData) as [? [?|]|].
Qed.

(** Exclusive creation: an existing destination is a collision, and the
    store is not touched. *)
Lemma copyFile_collision src dst (tmplData : TemplateData) fs :
  is_Some (fs !! src) → is_Some (fs !! dst) →
  copyFile src dst tmplData fs =
    (Failed (ErrCreatingDstFile (mkPathError "open" dst EEXIST)), fs).
Proof.
  intros [n Hs] [m Hd]. unfold copyFile, Open, OpenFileExcl. by rewrite Hs, Hd.
Qed.

Lemma OpenFileExcl_created dst perm fs fs1 :
  OpenFileExcl dst perm fs = inr fs1 →
  fs !! dst = None ∧ fs1 = <[dst := File perm EmptyString]> fs.
Proof.
  unfold OpenFileExcl. destruct (fs !! dst) eqn:Hd; [done|].
  destruct dst as [|c dst]; [done|].
  destruct (fs !! removelast (c :: dst)) as [[]|]; try done. by intros [= <-].
Qed.

(** A content that refers to a key the data lacks: the destination file
    has been created when the template is executed, the execution error
    is returned, and the file stays with what was written before it. *)
Lemma copyFile_missing_key src dst (tmplData : TemplateData) fs fs1
    perm content tmpl key :
  tmplData ≠ ∅ →
  fs !! src = Some (File perm content) →
  OpenFileExcl dst perm0660 fs = inr fs1 →
  Template.Parse content = Template.Parsed tmpl →
  forallb Template.textContext tmpl = true →
  Template.FieldNode key ∈ tmpl → tmplData !! key = None →
  ∃ out e,
    Template.execute tmpl tmplData = (out, Some e) ∧
    copyFile src dst tmplData fs =
      (Failed (ErrExecutingTemplate src tmplData e),
       <[dst := File perm0660 out]> fs).
Proof.
  intros Hne Hsrc Hopen Hparse Htext Hin Hkey.
  destruct (execute_missing_key tmpl tmplData key Hin Hkey) as (out & e & Hex).
  exists out, e. split; [done|].
  unfold copyFile, Open. rewrite Hsrc, Hopen, (size_non_empty _ Hne).
  apply OpenFileExcl_created in Hopen as [Hd ->].
  unfold Read. rewrite lookup_insert_ne by congruence. rewrite Hsrc, Hparse.
  unfold Template.Execute. rewrite Htext, Hex. by rewrite Write_created.
Qed.

Lemma copyFile_missing_key_not_done src dst (tmplData : TemplateData) fs
    perm content tmpl key :
  tmplData ≠ ∅ →
  fs !! src = Some (File perm content) →
  Template.Parse content = Template.Parsed tmpl →
  Template.FieldNode key ∈ tmpl → tmplData !! key = None →
  (copyFile src dst tmplData fs).1 ≠ Done.
Proof.
  intros Hne Hsrc Hparse Hin Hkey.
  destruct (execute_missing_key tmpl tmplData key Hin Hkey) as (out & e & Hex).
  unfold copyFile, Open. rewrite Hsrc, (size_non_empty _ Hne).
  destruct (OpenFileExcl dst perm0660 fs) as [?|fs1] eqn:Hopen; [done|].
  apply OpenFileExcl_created in Hopen as [Hd ->].
  unfold Read. rewrite lookup_insert_ne by congruence. rewrite Hsrc, Hparse.
  unfold Template.Execute. destruct (forallb _ _); [|done]. by rewrite Hex.
Qed.

End copyFile_facts.

(** C1 as the spec states it: the copy fails, but the destination file is
    there, with the text rendered up to the failing reference. *)
Lemma missing_key_leaves_a_partial_file :
  let r := CopyDir2 1 ["src"] ["dst"] IdentityRename {[ "name" := "Ann" ]} fsLetter in
  fsLetter !! ["dst"; "src"; "letter"] = None ∧
  r.1 = Failed (ErrExecutingTemplate ["src"; "letter"] {[ "name" := "Ann" ]}
                  (Template.MapHasNoEntry "nope")) ∧
  r.2 !! ["dst"; "src"; "letter"] = Some (File perm0660 "Dear Ann, ") ∧
  ¬ (r.1 ≠ Done ∧ r.2 !! ["dst"; "src"; "letter"] = None).
Proof. vm_compute. split_and!; try done. intros [_ H]. discriminate H. Qed.

(** C1 (amended): a regular file below [src] whose content refers to a key
    that the non-empty template data lacks makes the whole call fail: it
    never returns success. The step that copies the file creates the
    destination file before it renders; when the rendering fails, the step
    returns the execution error and the file stays at the destination path,
    holding what was written before the failing reference. *)
Theorem missing_key_fails_the_copy
    (fuel : nat) (src dst : path) (rename : RenameFn) (tmplData : TemplateData)
    (fs : FS) (rel : list string) (name : string) (perm : N) (content : string)
    (tmpl : list Template.node) (key : string) :
  tmplData ≠ ∅ →
  isNames (rel ++ [name]) →
  (∀ i : nat, (i ≤ length rel)%nat → dirAt fs (src ++ take i rel) = true) →
  fs !! (src ++ rel ++ [name]) = Some (File perm content) →
  Template.Parse content = Template.Parsed tmpl →
  forallb Template.textContext tmpl = true →
  Template.FieldNode key ∈ tmpl →
  tmplData !! key = None →
  (CopyDir2 fuel src dst rename tmplData fs).1 ≠ Done ∧
  ∀ (dstPath : path) (fs' fs1 : FS),
    fs ⊆ fs' →
    OpenFileExcl dstPath perm0660 fs' = inr fs1 →
    ∃ out e,
      Template.execute tmpl tmplData = (out, Some e) ∧
      copyFile (src ++ rel ++ [name]) dstPath tmplData fs' =
        (Failed (ErrExecutingTemplate (src ++ rel ++ [name]) tmplData e),
         <[dstPath := File perm0660 out]> fs').
Proof.
  intros Hne Hnames Hdirs Hfile Hparse Htext Hin Hkey. split.
  - apply (CopyDir2_reaches _ _ _ _ _ _ rel name); [done..|eauto|].
    intros recurse fs' Hs. unfold copyEntry. cbn [IsDir Name].
    assert (Filepath.isName name = true) as Hname.
    { by apply (isNames_last rel). }
    rewrite Join_name, <- app_assoc by done.
    destruct (fileName _ name tmplData) as [o|rendered] eqn:Hfn.
    + simpl. intros ->. by apply fileName_not_done in Hfn.
    + eapply copyFile_missing_key_not_done; [done| |done..].
      by apply (lookup_weaken fs).
  - intros dstPath fs' fs1 Hs Hopen.
    eapply copyFile_missing_key; [done| |done..]. by apply (lookup_weaken fs).
Qed.

Lemma missing_key_fails_the_copy_witness :
  (CopyDir2 1 ["src"] ["dst"] IdentityRename {[ "name" := "Ann" ]} fsLetter).1 ≠ Done.
Proof.
  refine (proj1 (missing_key_fails_the_copy 1 ["src"] ["dst"] IdentityRename
    {[ "name" := "Ann" ]} fsLetter [] "letter" 0x1a4
    "Dear {{.name}}, {{.nope}} bye"
    [Template.TextNode "Dear "; Template.FieldNode "name"; Template.TextNode ", ";
     Template.FieldNode "nope"; Template.TextNode " bye"] "nope"
    _ _ _ _ _ _ _ _)).
  - vm_compute. discriminate.
  - repeat constructor.
  - intros i Hi. assert (i = 0) as -> by (simpl in Hi; lia). reflexivity.
  - reflexivity.
  - reflexivity.
  - reflexivity.
  - rewrite !elem_of_cons. auto 10.
  - reflexivity.
Defined.

(** ** Collisions *)

(** C2: when the path computed for a regular file below [src] exists
    already, the step that copies the file fails at the exclusive creation
    with [EEXIST] and changes nothing; the call does not succeed, and the
    node that was there is the same after the call. *)
Theorem existing_destination_is_a_collision
    (fuel : nat) (src dst : path) (rename : RenameFn) (tmplData : TemplateData)
    (fs : FS) (rel : list string) (name rendered : string) (existing : node) :
  isNames (rel ++ [name]) →
  (∀ i : nat, (i ≤ length rel)%nat → dirAt fs (src ++ take i rel) = true) →
  (∃ perm bytes, fs !! (src ++ rel ++ [name]) = Some (File perm bytes)) →
  fileName (src ++ rel ++ [name]) name tmplData = inr rendered →
  let dstPath := Filepath.Join (targetDir rename dst src rel) rendered in
  fs !! dstPath = Some existing →
  (∀ fs', fs ⊆ fs' →
     copyFile (src ++ rel ++ [name]) dstPath tmplData fs' =
       (Failed (ErrCreatingDstFile (mkPathError "open" dstPath EEXIST)), fs')) ∧
  (CopyDir2 fuel src dst rename tmplData fs).1 ≠ Done ∧
  (CopyDir2 fuel src dst rename tmplData fs).2 !! dstPath = Some existing.
Proof.
  intros Hnames Hdirs (perm & bytes & Hfile) Hfn dstPath Hexists.
  assert (∀ fs', fs ⊆ fs' →
     copyFile (src ++ rel ++ [name]) dstPath tmplData fs' =
       (Failed (ErrCreatingDstFile (mkPathError "open" dstPath EEXIST)), fs'))
    as Hstep.
  { intros fs' Hs. apply copyFile_collision.
    - exists (File perm bytes). by apply (lookup_weaken fs).
    - exists existing. by apply (lookup_weaken fs). }
  split_and!; [done| |].
  - apply (CopyDir2_reaches _ _ _ _ _ _ rel name); [done..|eauto|].
    intros recurse fs' Hs. unfold copyEntry. cbn [IsDir Name].
    assert (Filepath.isName name = true) as Hname.
    { by apply (isNames_last rel). }
    rewrite Join_name, <- app_assoc by done. rewrite Hfn.
    fold dstPath. by rewrite Hstep.
  - apply (lookup_weaken fs); [done|]. apply CopyDir2_grows.
Qed.

Lemma existing_destination_is_a_collision_witness :
  let r := CopyDir2 1 ["src"] ["dst"] IdentityRename ∅ fsTaken in
  r.1 ≠ Done ∧ r.2 !! ["dst"; "src"; "a"] = Some (File 0x1a4 "old").
Proof.
  refine (proj2 (existing_destination_is_a_collision 1 ["src"] ["dst"]
    IdentityRename ∅ fsTaken [] "a" "a" (File 0x1a4 "old") _ _ _ _ _)).
  - repeat constructor.
  - intros i Hi. assert (i = 0) as -> by (simpl in Hi; lia). reflexivity.
  - exists 0x1a4%N, "new". reflexivity.
  - reflexivity.
  - reflexivity.
Defined.

(** ** Modes *)



(** ** Copying a tree without template data *)

Section paths.
Implicit Types (p q d : path).

Lemma prefix_comparable p1 p2 q :
  p1 `prefix_of` q → p2 `prefix_of` q → p1 `prefix_of` p2 ∨ p2 `prefix_of` p1.
Proof.
  revert p2 q. induction p1 as [|x p1 IH]; intros p2 q H1 H2.
  - left. apply prefix_nil.
  - destruct p2 as [|y p2]; [right; apply prefix_nil|].
    destruct H1 as [k1 ->]. destruct H2 as [k2 H2]. simpl in H2.
    injection H2 as -> H2.
    destruct (IH p2 (p1 ++ k1)) as [H|H].
    + by exists k1.
    + by exists k2.
    + left. by apply prefix_cons.
    + right. by apply prefix_cons.
Qed.

Lemma prefix_snoc_inv p d r :
  p `prefix_of` d ++ [r] → p = d ++ [r] ∨ p `prefix_of` d.
Proof.
  intros [k Hk]. destruct k as [|x k _] using rev_ind.
  - left. by rewrite app_nil_r in Hk.
  - right. rewrite app_assoc in Hk. apply app_inj_tail in Hk as [-> _].
    by exists k.
Qed.

Lemma prefix_snoc_not p r : ¬ ((p ++ [r]) `prefix_of` p).
Proof.
  intros H. apply prefix_length in H. rewrite length_app in H. simpl in H. lia.
Qed.

Lemma prefix_siblings p a b q :
  (p ++ [a]) `prefix_of` q → (p ++ [b]) `prefix_of` q → a = b.
Proof.
  intros [k1 ->] [k2 H]. rewrite <- !app_assoc in H.
  apply app_inv_head in H. simpl in H. congruence.
Qed.

Lemma prefix_sibling_eq p a b :
  (p ++ [a]) `prefix_of` p ++ [b] → a = b.
Proof. intros H. by apply (prefix_siblings p a b (p ++ [b])). Qed.

End paths.

Section holds_facts.
Implicit Types (fs : FS) (p q : path).

Lemma holds_dir fs p perm entries :
  holds fs p (TDir perm entries) ↔
  fs !! p = Some (Dir perm) ∧ children p fs ≡ₚ entries.*1 ∧
  Forall (λ e, holds fs (p ++ [e.1]) e.2) entries.
Proof.
  cbn [holds]. do 2 (apply and_iff_compat_l).
  induction entries as [|e entries IH].
  - split; [by constructor | done].
  - rewrite Forall_cons, IH. done.
Qed.

Lemma children_elem fs p name :
  name ∈ children p fs ↔ is_Some (fs !! (p ++ [name])).
Proof.
  unfold children. rewrite list_elem_of_fmap. split.
  - intros (e & -> & He). apply elem_of_entries in He as (n & Hn & _). eauto.
  - intros [n Hn]. exists (mkFileInfo name (isDir n)). split; [done|].
    apply elem_of_entries. eauto.
Qed.

Lemma NoDup_children fs p : NoDup (children p fs).
Proof.
  unfold children. pose proof (NoDup_fst_map_to_list fs) as Hnd.
  induction (map_to_list fs) as [|[k n] l IH]; [constructor|].
  simpl in Hnd. apply NoDup_cons in Hnd as [Hk Hnd]. simpl.
  destruct (entryOf p (k, n)) as [e|] eqn:He; [|by apply IH].
  simpl. apply NoDup_cons. split; [|by apply IH].
  intros Hin. apply Hk. apply list_elem_of_fmap in Hin as (e' & Hname & Hin).
  apply list_elem_of_omap in Hin as ([k' n'] & Hin & He').
  apply entryOf_Some in He as [-> _]. apply entryOf_Some in He' as [Hk' _].
  apply list_elem_of_fmap. exists (k', n'). split; [|done].
  simpl in *. congruence.
Qed.

Lemma children_frame fs fs' p :
  (∀ name, fs' !! (p ++ [name]) = fs !! (p ++ [name])) →
  children p fs' ≡ₚ children p fs.
Proof.
  intros Hsame. apply NoDup_Permutation; [apply NoDup_children..|].
  intros name. by rewrite !children_elem, Hsame.
Qed.

(** [holds fs p t] only reads the store at [p] and below. *)
Lemma holds_frame fs fs' t p :
  (∀ q, p `prefix_of` q → fs' !! q = fs !! q) → holds fs p t → holds fs' p t.
Proof.
  revert p. induction t as [perm data|perm entries IH] using tree_ind;
    intros p Hsame.
  - simpl. by rewrite Hsame.
  - rewrite !holds_dir. intros (Hp & Hch & Hall). split_and!.
    + by rewrite Hsame.
    + rewrite <- Hch. apply children_frame. intros name.
      apply Hsame. by apply prefix_app_r.
    + rewrite Forall_forall in IH, Hall |- *. intros e He.
      apply IH; [done| |by apply Hall].
      intros q Hq. apply Hsame. etrans; [|done]. by apply prefix_app_r.
Qed.

Lemma holds_node fs p t :
  holds fs p t → ∃ n, fs !! p = Some n ∧ isDir n = isTDir t.
Proof. destruct t; simpl; [|intros [? _]]; eauto. Qed.

End holds_facts.

Section system_calls.
Implicit Types (fs : FS) (d : path).

Lemma MkdirAllUp_existing rname perm fs m :
  fs !! rev rname = Some (Dir m) → MkdirAllUp rname perm fs = (None, fs).
Proof. intros H. destruct rname; cbn [MkdirAllUp]; by rewrite H. Qed.

Lemma Mkdir_fresh d r perm fs m :
  fs !! (d ++ [r]) = None → fs !! d = Some (Dir m) →
  Mkdir (d ++ [r]) perm fs = (None, <[d ++ [r] := Dir perm]> fs).
Proof.
  intros Hn Hd. unfold Mkdir. rewrite Hn.
  destruct (d ++ [r]) as [|x l] eqn:E; [by destruct d|].
  by rewrite <- E, removelast_last, Hd.
Qed.

Lemma MkdirAll_fresh d r perm fs m :
  fs !! (d ++ [r]) = None → fs !! d = Some (Dir m) →
  MkdirAll (d ++ [r]) perm fs = (None, <[d ++ [r] := Dir perm]> fs).
Proof.
  intros Hn Hd. unfold MkdirAll. rewrite rev_unit. cbn [MkdirAllUp].
  assert (rev (r :: rev d) = d ++ [r]) as ->
    by (simpl; by rewrite rev_involutive).
  rewrite Hn, (MkdirAllUp_existing _ _ _ m) by (by rewrite rev_involutive).
  by rewrite (Mkdir_fresh _ _ _ _ m).
Qed.

Lemma OpenFileExcl_fresh d r perm fs m :
  fs !! (d ++ [r]) = None → fs !! d = Some (Dir m) →
  OpenFileExcl (d ++ [r]) perm fs = inr (<[d ++ [r] := File perm EmptyString]> fs).
Proof.
  intros Hn Hd. unfold OpenFileExcl. rewrite Hn.
  destruct (d ++ [r]) as [|x l] eqn:E; [by destruct d|].
  by rewrite <- E, removelast_last, Hd.
Qed.

(** Without template data the bytes of the source are the bytes of the
    new file. *)
Lemma copyFile_plain src d r fs perm data m :
  fs !! src = Some (File perm data) →
  fs !! (d ++ [r]) = None → fs !! d = Some (Dir m) →
  copyFile src (d ++ [r]) ∅ fs = (Done, <[d ++ [r] := File perm0660 data]> fs).
Proof.
  intros Hs Hn Hd. unfold copyFile, Open. rewrite Hs.
  rewrite (OpenFileExcl_fresh _ _ _ _ m) by done.
  rewrite map_size_empty. cbn [Nat.eqb]. unfold Read.
  rewrite lookup_insert_ne by congruence. rewrite Hs.
  by rewrite Write_created.
Qed.

End system_calls.

Section injective_names.
Context {A B : Type}.

Lemma NoDup_fmap_eq (f : A → B) (l : list A) (x y : A) :
  NoDup (f <$> l) → x ∈ l → y ∈ l → f x = f y → x = y.
Proof.
  induction l as [|a l IH]; intros Hnd Hx Hy Hf; [by apply elem_of_nil in Hx|].
  rewrite fmap_cons in Hnd. apply NoDup_cons in Hnd as [Ha Hnd].
  apply elem_of_cons in Hx as [->|Hx]; apply elem_of_cons in Hy as [->|Hy].
  - done.
  - destruct Ha. rewrite Hf. by apply list_elem_of_fmap_2.
  - destruct Ha. rewrite <- Hf. by apply list_elem_of_fmap_2.
  - by apply IH.
Qed.

End injective_names.

Section copy_directory.
Variables (rename : RenameFn) (fuel : nat) (src tgt : path) (fs : FS).
Variable entries : list (string * tree).

Hypothesis IH : ∀ e, e ∈ entries → isTDir e.2 = true →
  ∀ (src' dst' : path) (fs' : FS),
    holds fs' src' e.2 → copyable rename e.2 = true → dirAt fs' dst' = true →
    Filepath.isName (rename (Filepath.Base src')) = true →
    (∀ q, (dst' ++ [rename (Filepath.Base src')]) `prefix_of` q → fs' !! q = None) →
    ¬ (src' `prefix_of` dst') →
    ∃ fs'', CopyDir2 fuel src' dst' rename ∅ fs' = (Done, fs'') ∧
            holds fs'' (dst' ++ [rename (Filepath.Base src')]) (mirror rename e.2) ∧
            ∀ q, ¬ ((dst' ++ [rename (Filepath.Base src')]) `prefix_of` q) →
                 fs'' !! q = fs' !! q.
Hypothesis Hsrc : ∀ e, e ∈ entries → holds fs (src ++ [e.1]) e.2.
Hypothesis Hnames : NoDup entries.*1.
Hypothesis Htargets : NoDup (targetName rename <$> entries).
Hypothesis Hcopyable : ∀ e, e ∈ entries →
  Filepath.isName e.1 = true ∧ Filepath.isName (targetName rename e) = true ∧
  copyable rename e.2 = true.
Hypothesis Hapart : ∀ q, src `prefix_of` q → ¬ (tgt `prefix_of` q).

Lemma copied_step (fs_i fs' : FS) (done : list string) (e : string * tree) :
  copiedSoFar rename fs fs_i tgt entries done →
  e ∈ entries → e.1 ∉ done →
  holds fs' (tgt ++ [targetName rename e]) (mirror rename e.2) →
  (∀ q, ¬ ((tgt ++ [targetName rename e]) `prefix_of` q) →
     fs' !! q = fs_i !! q) →
  copiedSoFar rename fs fs' tgt entries (done ++ [e.1]).
Proof.
  intros (Ha & Hb & Hd & He) Hin Hnot Hnew Hsame. split_and!.
  - intros q Hq. rewrite Hsame; [by apply Ha|]. intros Hp. apply Hq.
    etrans; [|done]. by apply prefix_app_r.
  - rewrite Hsame; [done|]. apply prefix_snoc_not.
  - intros e2 Hin2 Hdone2. apply elem_of_app in Hdone2 as [Hdone2|Heq].
    + apply (holds_frame fs_i); [|by apply Hd]. intros q Hq. apply Hsame.
      intros Hq'. pose proof (prefix_siblings _ _ _ _ Hq Hq') as Heq.
      assert (e2 = e) as -> by (by apply (NoDup_fmap_eq (targetName rename) entries)).
      done.
    + apply list_elem_of_singleton in Heq.
      assert (e2 = e) as -> by (by apply (NoDup_fmap_eq fst entries)). done.
  - intros q Hq Hsome.
    destruct (decide ((tgt ++ [targetName rename e]) `prefix_of` q)) as [Hp|Hp].
    + right. exists e. split_and!; [done| |done].
      apply elem_of_app. right. by apply list_elem_of_singleton.
    + rewrite Hsame in Hsome by done.
      destruct (He q Hq Hsome) as [->|(e2 & ? & ? & ?)]; [by left|].
      right. exists e2. split_and!; try done. apply elem_of_app. by left.
Qed.

Lemma fresh_target (fs_i : FS) (done : list string) (e : string * tree) (q : path) :
  copiedSoFar rename fs fs_i tgt entries done →
  e ∈ entries → e.1 ∉ done →
  (tgt ++ [targetName rename e]) `prefix_of` q → fs_i !! q = None.
Proof.
  intros (Ha & Hb & Hd & He) Hin Hnot Hq.
  destruct (fs_i !! q) as [n|] eqn:Hn; [|done]. exfalso.
  destruct (He q) as [->|(e2 & Hin2 & Hdone2 & Hq2)].
  - etrans; [|done]. by apply prefix_app_r.
  - by rewrite Hn.
  - by apply prefix_snoc_not in Hq.
  - pose proof (prefix_siblings _ _ _ _ Hq Hq2) as Heq.
    assert (e = e2) as -> by (by apply (NoDup_fmap_eq (targetName rename) entries)).
    done.
Qed.

Lemma source_entry_kept (fs_i : FS) (done : list string) (e : string * tree) :
  copiedSoFar rename fs fs_i tgt entries done →
  e ∈ entries → holds fs_i (src ++ [e.1]) e.2.
Proof.
  intros (Ha & _) Hin. apply (holds_frame fs); [|by apply Hsrc].
  intros q Hq. apply Ha. apply Hapart. etrans; [|done]. by apply prefix_app_r.
Qed.

Lemma copy_entry_mirrors (fs_i : FS) (done : list string)
    (x : FileInfo) (e : string * tree) :
  copiedSoFar rename fs fs_i tgt entries done →
  e ∈ entries → e.1 ∉ done → Name x = e.1 → IsDir x = isTDir e.2 →
  ∃ fs',
    copyEntry (λ src' dst', CopyDir2 fuel src' dst' rename ∅) src tgt ∅ x fs_i
    = (Done, fs') ∧
    copiedSoFar rename fs fs' tgt entries (done ++ [e.1]).
Proof.
  intros Hinv Hin Hnot Hname Hdir.
  destruct (Hcopyable e Hin) as (Hn & Htn & Hc).
  pose proof (source_entry_kept fs_i done e Hinv Hin) as Hkept.
  pose proof (fresh_target fs_i done e) as Hfresh.
  unfold copyEntry. rewrite Hname, Hdir, Join_name by done.
  destruct e as [n [perm data|perm es]]; simpl in *.
  - unfold targetName in *. simpl in *.
    unfold fileName. rewrite map_size_empty. simpl.
    rewrite Join_name by done. destruct Hinv as (Ha & Hb & Hd & He).
    rewrite (copyFile_plain _ _ _ _ perm data perm0770); [|done| |done].
    + eexists. split; [done|].
      apply (copied_step fs_i _ done (n, TFile perm data)); [done..| |].
      * simpl. apply lookup_insert_eq.
      * intros q Hq. apply lookup_insert_ne. by intros <-.
    + by apply Hfresh.
  - unfold targetName in *. simpl in *.
    destruct Hinv as (Ha & Hb & Hd & He).
    pose proof (IH (n, TDir perm es) Hin eq_refl (src ++ [n]) tgt fs_i) as IHe.
    rewrite Base_snoc in IHe. simpl in IHe.
    destruct IHe as (fs' & Hrun & Hholds & Hsame); try done.
    + unfold dirAt. by rewrite Hb.
    + intros q Hq. by apply Hfresh.
    + intros Hp. apply (Hapart tgt); [|done]. etrans; [|done]. by apply prefix_app_r.
    + exists fs'. split; [done|].
      by apply (copied_step fs_i _ done (n, TDir perm es)).
Qed.

Lemma copy_entries_mirror (l : list FileInfo) :
  ∀ (done : list string) (fs_i : FS),
    NoDup (Name <$> l) →
    (∀ x, x ∈ l →
       (Name x ∉ done) ∧
       ∃ e, e ∈ entries ∧ Name x = e.1 ∧ IsDir x = isTDir e.2) →
    copiedSoFar rename fs fs_i tgt entries done →
    ∃ fs_f,
      forEntries (copyEntry (λ src' dst', CopyDir2 fuel src' dst' rename ∅)
                    src tgt ∅) l fs_i = (Done, fs_f) ∧
      copiedSoFar rename fs fs_f tgt entries (done ++ (Name <$> l)).
Proof.
  induction l as [|x l IHl]; intros done fs_i Hnd Hl Hinv.
  - exists fs_i. simpl. by rewrite app_nil_r.
  - rewrite fmap_cons in Hnd. apply NoDup_cons in Hnd as [Hx Hnd].
    destruct (Hl x) as [Hnot (e & Hin & Hname & Hdir)]; [by left|].
    rewrite Hname in Hnot.
    destruct (copy_entry_mirrors fs_i done x e) as (fs' & Hrun & Hinv'); [done..|].
    destruct (IHl (done ++ [e.1]) fs') as (fs_f & Hloop & Hfinal); [done| |done|].
    + intros y Hy. destruct (Hl y) as [Hynot Hye]; [by right|]. split; [|done].
      intros Hy'. apply elem_of_app in Hy' as [?|Hy']; [done|].
      apply list_elem_of_singleton in Hy'. apply Hx. rewrite Hname, <- Hy'.
      by apply list_elem_of_fmap_2.
    + exists fs_f. simpl. rewrite Hrun. split; [done|].
      rewrite Hname. by rewrite <- app_assoc in Hfinal.
Qed.

End copy_directory.

Lemma height_entry (entries : list (string * tree)) (e : string * tree) :
  e ∈ entries → (height e.2 ≤ foldr (λ e h, height e.2 `max` h) 0 entries)%nat.
Proof.
  induction entries as [|a entries IH]; intros He; [by apply elem_of_nil in He|].
  apply elem_of_cons in He as [->|He]; simpl; [lia|].
  specialize (IH He). lia.
Qed.

Lemma copyable_dir (rename : RenameFn) (perm : N) (entries : list (string * tree)) :
  copyable rename (TDir perm entries) = true →
  NoDup (targetName rename <$> entries) ∧
  ∀ e, e ∈ entries →
    Filepath.isName e.1 = true ∧ Filepath.isName (targetName rename e) = true ∧
    copyable rename e.2 = true.
Proof.
  cbn [copyable]. rewrite andb_true_iff. intros [Hnd Hall]. split.
  - by apply bool_decide_eq_true_1 in Hnd.
  - intros e He. rewrite forallb_forall in Hall.
    specialize (Hall e (proj1 (list_elem_of_In _ _) He)).
    rewrite !andb_true_iff in Hall. tauto.
Qed.

Lemma CopyDir2_mirrors (rename : RenameFn) (t : tree) :
  ∀ (fuel : nat) (src dst : path) (fs : FS),
    (height t ≤ fuel)%nat → isTDir t = true →
    holds fs src t → copyable rename t = true → dirAt fs dst = true →
    Filepath.isName (rename (Filepath.Base src)) = true →
    (∀ q, (dst ++ [rename (Filepath.Base src)]) `prefix_of` q → fs !! q = None) →
    ¬ (src `prefix_of` dst) →
    ∃ fs', CopyDir2 fuel src dst rename ∅ fs = (Done, fs') ∧
           holds fs' (dst ++ [rename (Filepath.Base src)]) (mirror rename t) ∧
           ∀ q, ¬ ((dst ++ [rename (Filepath.Base src)]) `prefix_of` q) →
                fs' !! q = fs !! q.
Proof.
  induction t as [perm data|perm entries IH] using tree_ind;
    intros fuel src dst fs Hfuel Hdir Hholds Hcopy Hdst Hname Hfresh Hout;
    [discriminate Hdir|].
  destruct fuel as [|fuel]; [simpl in Hfuel; lia|].
  set (tgt := dst ++ [rename (Filepath.Base src)]) in *.
  apply holds_dir in Hholds as (Hsrc & Hch & Hall).
  rewrite Forall_forall in Hall, IH.
  apply copyable_dir in Hcopy as [Htargets Hcopyable].
  assert (NoDup entries.*1) as Hnames by (rewrite <- Hch; apply NoDup_children).
  assert (fs !! tgt = None) as Htgt by (by apply Hfresh).
  assert (∀ q, src `prefix_of` q → ¬ (tgt `prefix_of` q)) as Hapart.
  { intros q Hs Ht. destruct (prefix_comparable _ _ _ Hs Ht) as [H|H].
    - apply prefix_snoc_inv in H as [Heq|H]; [|done].
      fold tgt in Heq. congruence.
    - rewrite (Hfresh src H) in Hsrc. discriminate Hsrc. }
  assert (dirAt fs src = true) as Hsrcdir by (unfold dirAt; by rewrite Hsrc).
  rewrite CopyDir2_unfold, checkDirs_ok by done. cbn zeta.
  rewrite Join_name by done.
  unfold dirAt in Hdst. destruct (fs !! dst) as [[m|]|] eqn:Hd; try done.
  rewrite (MkdirAll_fresh _ _ _ _ m) by done. fold tgt.
  set (fs1 := <[tgt := Dir perm0770]> fs).
  assert (∀ q, ¬ (tgt `prefix_of` q) → fs1 !! q = fs !! q) as Hfs1.
  { intros q Hq. apply lookup_insert_ne. by intros <-. }
  assert (fs1 !! src = Some (Dir perm)) as Hsrc1.
  { rewrite Hfs1; [done|]. by apply Hapart. }
  destruct (ReadDir_dir src fs1 perm Hsrc1) as (l & -> & Hperm).
  assert (∀ name, fs1 !! (src ++ [name]) = fs !! (src ++ [name])) as Hsame.
  { intros name. apply Hfs1, Hapart. by apply prefix_app_r. }
  destruct (copy_entries_mirror rename fuel src tgt fs entries) with
    (l := l) (done := @nil string) (fs_i := fs1) as (fs_f & Hloop & Hfinal);
    try done.
  - intros e He Hedir src' dst' fs' ?????. apply IH; try done.
    simpl in Hfuel. pose proof (height_entry entries e He). lia.
  - rewrite Hperm. apply (NoDup_children fs1 src).
  - intros x Hx. split; [apply not_elem_of_nil|].
    rewrite Hperm in Hx. apply elem_of_entries in Hx as (n & Hn & Hxdir).
    rewrite Hsame in Hn.
    assert (Name x ∈ entries.*1) as Hin.
    { rewrite <- Hch. apply children_elem. eauto. }
    apply list_elem_of_fmap in Hin as (e & Hname' & He).
    exists e. split_and!; [done..|].
    destruct (holds_node _ _ _ (Hall e He)) as (n' & Hn' & <-).
    rewrite <- Hname' in Hn'. congruence.
  - split_and!; [done| apply lookup_insert_eq | intros e _ He; by apply elem_of_nil in He |].
    intros q Hq [n Hn]. left. destruct (decide (q = tgt)) as [->|Hne]; [done|].
    unfold fs1 in Hn. rewrite lookup_insert_ne in Hn by done.
    by rewrite Hfresh in Hn.
  - destruct Hfinal as (Ha & Hb & Hdn & He). simpl in Hdn, He.
    assert (∀ e, e ∈ entries → e.1 ∈ Name <$> l) as Hlisted.
    { intros e Hin. assert (e.1 ∈ children src fs1) as Hc.
      { apply children_elem. rewrite Hsame.
        destruct (holds_node _ _ _ (Hall e Hin)) as (n & Hn & _). eauto. }
      unfold children in Hc. by rewrite Hperm. }
    exists fs_f. split_and!; [done| |done].
    apply holds_dir. split_and!; [done| |].
    + rewrite <- list_fmap_compose.
      apply NoDup_Permutation; [apply NoDup_children|done|].
      intros name. rewrite children_elem. split.
      * intros Hsome. destruct (He (tgt ++ [name])) as [H|(e & Hin & _ & Hp)];
          [by apply prefix_app_r|done|..].
        { apply (f_equal length) in H. rewrite length_app in H. simpl in H. lia. }
        apply prefix_sibling_eq in Hp as <-. by apply list_elem_of_fmap_2.
      * intros (e & -> & Hin)%list_elem_of_fmap.
        destruct (holds_node _ _ _ (Hdn e Hin (Hlisted e Hin))) as (n & Hn & _).
        simpl in Hn. eauto.
    + apply Forall_fmap, Forall_forall. intros e Hin. simpl.
      by apply Hdn, Hlisted.
Qed.

(** C5: without template data, copying a directory tree [t] found at [src]
    into an existing directory [dst], where nothing exists yet under the
    target name, succeeds (the recursion needs no more depth than the
    tree has) and leaves at the target the mirror image of [t]: the same
    directory structure with [rename] applied to the directory names at
    every level, and every file with the same bytes. The rest of the store,
    the source included, is unchanged. *)
Theorem copy_without_template_data_mirrors_the_tree
    (rename : RenameFn) (t : tree) (fuel : nat) (src dst : path) (fs : FS) :
  isTDir t = true →
  holds fs src t →
  copyable rename t = true →
  dirAt fs dst = true →
  Filepath.isName (rename (Filepath.Base src)) = true →
  let tgtDir := dst ++ [rename (Filepath.Base src)] in
  (∀ q, tgtDir `prefix_of` q → fs !! q = None) →
  ¬ (src `prefix_of` dst) →
  (height t ≤ fuel)%nat →
  ∃ fs',
    CopyDir2 fuel src dst rename ∅ fs = (Done, fs') ∧
    holds fs' tgtDir (mirror rename t) ∧
    ∀ q, ¬ (tgtDir `prefix_of` q) → fs' !! q = fs !! q.
Proof.
  intros Hdir Hholds Hcopy Hdst Hname tgtDir Hfresh Hout Hfuel.
  by apply CopyDir2_mirrors.
Qed.

Lemma fsRepo_target_is_fresh (q : path) :
  ["dst"; "src"] `prefix_of` q → fsRepo !! q = None.
Proof.
  intros [k ->]. destruct (fsRepo !! (["dst"; "src"] ++ k)) as [n|] eqn:Hn; [|done].
  apply elem_of_map_to_list in Hn. vm_compute in Hn.
  repeat (apply elem_of_cons in Hn as [Hn|Hn]; [discriminate Hn|]).
  by apply elem_of_nil in Hn.
Qed.

Lemma copy_without_template_data_mirrors_the_tree_witness :
  ∃ fs',
    CopyDir2 2 ["src"] ["dst"] DotRename ∅ fsRepo = (Done, fs') ∧
    holds fs' ["dst"; "src"]
      (TDir perm0770
         [ ("README", TFile perm0660 "hello");
           (".git", TDir perm0770 [ ("config", TFile perm0660 "[core]") ]) ]) ∧
    ∀ q, ¬ (["dst"; "src"] `prefix_of` q) → fs' !! q = fsRepo !! q.
Proof.
  apply (copy_without_template_data_mirrors_the_tree DotRename treeRepo 2
           ["src"] ["dst"] fsRepo).
  - reflexivity.
  - unfold treeRepo. cbn [holds fst snd].
    split_and!; try exact I; try reflexivity;
      apply (bool_decide_unpack _); vm_compute; exact I.
  - vm_compute. reflexivity.
  - reflexivity.
  - reflexivity.
  - exact fsRepo_target_is_fresh.
  - intros [k Hk]. discriminate Hk.
  - vm_compute. lia.
Defined.

Example repo_copied :
  let r := CopyDir2 2 ["src"] ["dst"] DotRename ∅ fsRepo in
  r.1 = Done ∧
  r.2 !! ["dst"; "src"; ".git"; "config"] = Some (File perm0660 "[core]") ∧
  r.2 !! ["dst"; "src"; "README"] = Some (File perm0660 "hello") ∧
  r.2 !! ["dst"; "src"; "dot.git"] = None.
Proof. vm_compute. done. Qed.

(** * Further properties *)

(** ** Key-value arguments *)

Section key_values.
Import GoStrings.

Lemma HasPrefix_drop (s sub : string) :
  HasPrefix s sub = true → s = sub +:+ drop (String.length sub) s.
Proof.
  intros Hp. apply HasPrefix_spec in Hp as [r ->]. by rewrite drop_app_length.
Qed.

Lemma Index_Some_split (s sub : string) (j : nat) :
  Index s sub = Some j →
  s = take j s +:+ sub +:+ drop (j + String.length sub) s.
Proof.
  revert j. induction s as [|c s IH]; intros j; cbn [Index].
  - destruct (HasPrefix EmptyString sub) eqn:Hp; [|done]. intros [= <-].
    by apply HasPrefix_drop.
  - destruct (HasPrefix (String c s) sub) eqn:Hp.
    + intros [= <-]. by apply HasPrefix_drop.
    + destruct (Index s sub) as [j'|] eqn:Hi; [|done]. intros [= <-].
      simpl. f_equal. by apply IH.
Qed.

Lemma Index_occurs (a sub b : string) : Index (a +:+ sub +:+ b) sub ≠ None.
Proof.
  induction a as [|c a IH].
  - assert (HasPrefix (sub +:+ b) sub = true) as Hp
      by (apply HasPrefix_spec; eauto).
    simpl. destruct sub, b; cbn [Index String.app] in *; by rewrite ?Hp.
  - change (String c a +:+ sub +:+ b) with (String c (a +:+ sub +:+ b)).
    cbn [Index]. destruct (HasPrefix _ sub); [done|].
    by destruct (Index (a +:+ sub +:+ b) sub).
Qed.

Lemma Index_occurs_iff (s sub : string) :
  Index s sub ≠ None ↔ ∃ a b, s = a +:+ sub +:+ b.
Proof.
  split.
  - destruct (Index s sub) as [j|] eqn:Hj; [|done]. intros _.
    apply Index_Some_split in Hj. eauto.
  - intros (a & b & ->). apply Index_occurs.
Qed.

End key_values.

Section makeTemplateData_facts.
Import GoStrings.

Lemma Index_equals (k v : string) :
  noEquals k = true → Index (k +:+ "=" +:+ v) "=" = Some (String.length k).
Proof.
  unfold noEquals. induction k as [|c k IH]; intros Hk; [done|].
  simpl in Hk. apply andb_true_iff in Hk as [Hc Hk].
  change (String c k +:+ "=" +:+ v) with (String c (k +:+ "=" +:+ v)).
  cbn [Index HasPrefix String.length].
  rewrite Ascii.eqb_sym. apply negb_true_iff in Hc. rewrite Hc.
  by rewrite IH.
Qed.

Lemma makeTemplateDataFrom_app (data : TemplateData) (l1 l2 : list string) :
  makeTemplateDataFrom data (l1 ++ l2) =
    match makeTemplateDataFrom data l1 with
    | (data', None) => makeTemplateDataFrom data' l2
    | r => r
    end.
Proof.
  revert data. induction l1 as [|kv l1 IH]; intros data; [done|].
  simpl. destruct (Index kv "="); [apply IH | done].
Qed.

Lemma makeTemplateDataFrom_accepts (data : TemplateData) (kvs : list string) :
  (makeTemplateDataFrom data kvs).2 = None ↔
  ∀ kv, kv ∈ kvs → ∃ k v, kv = k +:+ "=" +:+ v.
Proof.
  revert data. induction kvs as [|kv kvs IH]; intros data.
  - split; [|done]. intros _ kv Hkv. by apply elem_of_nil in Hkv.
  - cbn [makeTemplateDataFrom].
    destruct (Index kv "=") as [pos|] eqn:Hpos.
    + cbn zeta. rewrite IH. split.
      * intros Hall kv' [->|Hin]%elem_of_cons; [|by apply Hall].
        apply Index_occurs_iff. by rewrite Hpos.
      * intros Hall kv' Hin. apply Hall. by right.
    + split; [done|]. intros Hall. exfalso.
      destruct (Hall kv) as (k & v & ->); [by left|].
      by apply Index_occurs in Hpos.
Qed.

Lemma makeTemplateDataFrom_pairs (data : TemplateData) (pairs : list (string * string)) :
  Forall (λ kv, noEquals kv.1 = true) pairs →
  makeTemplateDataFrom data ((λ kv, kv.1 +:+ "=" +:+ kv.2) <$> pairs) =
    (foldl (λ m kv, <[kv.1 := kv.2]> m) data pairs, None).
Proof.
  revert data. induction pairs as [|[k v] pairs IH]; intros data Hk; [done|].
  apply Forall_cons in Hk as [Hk Hrest]. cbn [fst] in Hk.
  rewrite fmap_cons. cbn [makeTemplateDataFrom fst snd].
  rewrite Index_equals by done. cbn zeta.
  rewrite take_app_length, drop_add, drop_app_length.
  change (drop 1 ("=" +:+ v)) with v. by apply IH.
Qed.

Lemma foldl_insert_reverse (pairs : list (string * string)) :
  foldl (λ (m : TemplateData) kv, <[kv.1 := kv.2]> m) ∅ pairs =
  list_to_map (reverse pairs).
Proof.
  induction pairs as [|kv pairs IH] using rev_ind; [done|].
  rewrite foldl_app, reverse_app. simpl. by rewrite IH.
Qed.

Lemma makeTemplateDataFrom_nonempty (data : TemplateData) (kvs : list string) :
  data ≠ ∅ → (makeTemplateDataFrom data kvs).1 ≠ ∅.
Proof.
  revert data. induction kvs as [|kv kvs IH]; intros data Hne; [done|].
  simpl. destruct (Index kv "="); [|done]. apply IH. apply insert_non_empty.
Qed.

Lemma makeTemplateDataFrom_error_elem (d : TemplateData) (l : list string)
    (data : TemplateData) (bad : string) :
  makeTemplateDataFrom d l = (data, Some (ErrMissingEquals bad)) → bad ∈ l.
Proof.
  revert d. induction l as [|x l IH]; intros d Hd; [done|].
  simpl in Hd. destruct (Index x "=") eqn:Hx.
  - right. by apply (IH _ Hd).
  - injection Hd as _ <-. by left.
Qed.

End makeTemplateData_facts.

(** X1: the arguments are accepted exactly when every one of them contains
    an ['=']. *)
Theorem makeTemplateData_accepts_iff (keyvals : list string) :
  (makeTemplateData keyvals).2 = None ↔
  ∀ kv, kv ∈ keyvals → ∃ k v, kv = k +:+ "=" +:+ v.
Proof. apply makeTemplateDataFrom_accepts. Qed.

(** X2: the error names the first argument without ['=']; the map returned
    with it holds the arguments before that one, and the arguments after it
    are not looked at. *)
Theorem makeTemplateData_first_offender (good : list string) (bad : string)
    (rest : list string) :
  (∀ kv, kv ∈ good → ∃ k v, kv = k +:+ "=" +:+ v) →
  (∀ k v, bad ≠ k +:+ "=" +:+ v) →
  makeTemplateData (good ++ bad :: rest) =
    ((makeTemplateData good).1, Some (ErrMissingEquals bad)).
Proof.
  intros Hgood Hbad. unfold makeTemplateData.
  rewrite makeTemplateDataFrom_app.
  apply (makeTemplateDataFrom_accepts ∅) in Hgood.
  destruct (makeTemplateDataFrom ∅ good) as [data err]. simpl in Hgood. subst err.
  simpl. by rewrite Index_None.
Qed.

Lemma makeTemplateData_first_offender_witness :
  makeTemplateData (["a=1"; "b=2"] ++ "oops" :: ["c=3"]) =
    ((makeTemplateData ["a=1"; "b=2"]).1, Some (ErrMissingEquals "oops")).
Proof.
  apply makeTemplateData_first_offender.
  - intros kv Hkv. apply elem_of_cons in Hkv as [->|Hkv]; [by exists "a", "1"|].
    apply elem_of_cons in Hkv as [->|Hkv]; [by exists "b", "2"|].
    by apply elem_of_nil in Hkv.
  - intros k v H. apply (Index_occurs k "=" v). rewrite <- H. reflexivity.
Defined.

(** X3: an argument is split at its first ['='], and a later argument
    overrides an earlier one with the same key: for keys without ['='], the
    arguments [k=v] give the map of the pairs in which the last pair of a key
    wins. The value may itself contain ['=']. *)
Theorem makeTemplateData_of_pairs (pairs : list (string * string)) :
  Forall (λ kv, noEquals kv.1 = true) pairs →
  makeTemplateData ((λ kv, kv.1 +:+ "=" +:+ kv.2) <$> pairs) =
    (list_to_map (reverse pairs), None).
Proof.
  intros Hk. unfold makeTemplateData.
  rewrite makeTemplateDataFrom_pairs by done. by rewrite foldl_insert_reverse.
Qed.

Lemma makeTemplateData_of_pairs_witness :
  makeTemplateData ["k=a=b"; "j="; "k=c"] =
    (list_to_map [("k", "c"); ("j", EmptyString); ("k", "a=b")], None).
Proof.
  apply (makeTemplateData_of_pairs [("k", "a=b"); ("j", EmptyString); ("k", "c")]).
  repeat constructor.
Defined.

(** X4: the map is empty only for an empty argument list: one accepted
    argument is enough to turn template processing on. *)
Theorem makeTemplateData_empty_iff (keyvals : list string) :
  (makeTemplateData keyvals).2 = None →
  ((makeTemplateData keyvals).1 = ∅ ↔ keyvals = []) ∧
  ((size (makeTemplateData keyvals).1 =? 0)%nat = true ↔ keyvals = []).
Proof.
  intros Hok.
  assert ((makeTemplateData keyvals).1 = ∅ ↔ keyvals = []) as Hiff.
  { split; [|by intros ->].
    destruct keyvals as [|kv kvs]; [done|]. unfold makeTemplateData in *.
    simpl in *. destruct (GoStrings.Index kv "="); [|done].
    intros H. by apply makeTemplateDataFrom_nonempty in H;
      [|apply insert_non_empty]. }
  split; [done|]. rewrite <- Hiff, Nat.eqb_eq. apply map_size_empty_iff.
Qed.

Lemma makeTemplateData_empty_iff_witness :
  (size (makeTemplateData ["bar=X"]).1 =? 0)%nat = true ↔ ["bar=X"] = [].
Proof. apply (makeTemplateData_empty_iff ["bar=X"]). reflexivity. Defined.

(** X5: a key-value argument without ['='] is a usage error that is
    returned before anything is read or created, whatever the directories
    are. *)
Theorem run_usage_error_before_any_copy (fuel : nat) (app : config) (fs : FS)
    (kv : string) :
  kv ∈ KeyVals app →
  (∀ k v, kv ≠ k +:+ "=" +:+ v) →
  ∃ bad, bad ∈ KeyVals app ∧ run fuel app fs = (inl (ErrMissingEquals bad), fs).
Proof.
  intros Hin Hbad. unfold run.
  assert ((makeTemplateData (KeyVals app)).2 ≠ None) as Herr.
  { rewrite makeTemplateData_accepts_iff. intros Hall.
    destruct (Hall kv Hin) as (k & v & ->). by apply (Hbad k v). }
  destruct (makeTemplateData (KeyVals app)) as [data [[bad]|]] eqn:Hm; [|done].
  exists bad. split; [|done]. by apply (makeTemplateDataFrom_error_elem ∅ _ data).
Qed.

Lemma run_usage_error_before_any_copy_witness :
  ∃ bad, bad ∈ ["who=X"; "oops"] ∧
    run 3 (mkConfig true ["nowhere"] ["dst"] ["who=X"; "oops"]) fsNotes
    = (inl (ErrMissingEquals bad), fsNotes).
Proof.
  apply (run_usage_error_before_any_copy 3
           (mkConfig true ["nowhere"] ["dst"] ["who=X"; "oops"]) fsNotes "oops").
  - right. left.
  - intros k v H. apply (Index_occurs k "=" v). rewrite <- H. reflexivity.
Defined.

(** ** Well-formed stores *)

Section wellFormed_facts.
Implicit Types (fs : FS) (p : path).

Lemma allb_rev_app (f : ascii → bool) (a b : string) :
  Template.allb f (String.rev_app a b) = Template.allb f a && Template.allb f b.
Proof.
  revert b. induction a as [|c a IH]; intros b; [done|].
  simpl. rewrite IH. simpl. by destruct (f c), (Template.allb f a).
Qed.

Lemma split_no_slash (acc s : string) :
  Template.allb (λ c, negb (Ascii.eqb c "/"%char)) acc = true →
  Forall (λ x, Template.allb (λ c, negb (Ascii.eqb c "/"%char)) x = true)
    (Filepath.split acc s).
Proof.
  revert acc. induction s as [|c s IH]; intros acc Hacc; simpl.
  - constructor; [|constructor]. unfold String.rev.
    by rewrite allb_rev_app, Hacc.
  - destruct (Ascii.eqb c "/") eqn:Hc.
    + constructor; [|by apply IH]. unfold String.rev.
      by rewrite allb_rev_app, Hacc.
    + apply IH. simpl. by rewrite Hc.
Qed.

Lemma isNames_removelast (names : list string) :
  isNames names → isNames (removelast names).
Proof.
  unfold isNames. induction names as [|x [|y names] IH]; intros H; [done..|].
  apply Forall_cons in H as [Hx H]. apply Forall_cons. split; [done|].
  by apply IH.
Qed.

Lemma enter_names p (elem : string) :
  isNames p →
  Template.allb (λ c, negb (Ascii.eqb c "/"%char)) elem = true →
  isNames (Filepath.enter p elem).
Proof.
  intros Hp Helem. unfold Filepath.enter.
  destruct (String.eqb elem EmptyString) eqn:H1; [done|].
  destruct (String.eqb elem ".") eqn:H2; [done|]. simpl.
  destruct (String.eqb elem "..") eqn:H3; [by apply isNames_removelast|].
  apply Forall_app. split; [done|]. apply Forall_singleton.
  unfold Filepath.isName. by rewrite H1, H2, H3, Helem.
Qed.

(** [Join] yields a clean path. *)
Lemma Join_names p (name : string) : isNames p → isNames (Filepath.Join p name).
Proof.
  intros Hp. unfold Filepath.Join.
  pose proof (split_no_slash EmptyString name eq_refl) as Hs.
  revert p Hp. induction Hs as [|x l Hx Hl IH]; intros p Hp; [done|].
  simpl. apply IH. by apply enter_names.
Qed.

Lemma wellFormedb_spec fs : wellFormedb fs = true → wellFormed fs.
Proof.
  unfold wellFormedb, wellFormed. rewrite forallb_forall. intros Hall p n Hp.
  specialize (Hall (p, n)). simpl in Hall.
  apply andb_true_iff in Hall as [Hnames Hparent].
  - split.
    + rewrite forallb_forall in Hnames. apply Forall_forall.
      intros x Hx. apply Hnames. by apply list_elem_of_In.
    + intros Hne. by destruct p.
  - apply list_elem_of_In. by apply elem_of_map_to_list.
Qed.

Lemma wellFormed_insert fs p n :
  wellFormed fs → fs !! p = None → isNames p → p ≠ [] →
  dirAt fs (removelast p) = true →
  wellFormed (<[p := n]> fs).
Proof.
  intros Hwf Hnone Hnames Hne Hparent q m Hq.
  assert (∀ d, dirAt fs d = true → dirAt (<[p := n]> fs) d = true) as Hkeep.
  { intros d Hd. unfold dirAt in *. rewrite lookup_insert_ne; [done|].
    intros <-. by rewrite Hnone in Hd. }
  destruct (decide (p = q)) as [<-|Hpq].
  - split; [done|]. intros _. by apply Hkeep.
  - rewrite lookup_insert_ne in Hq by done.
    destruct (Hwf q m Hq) as [Hqn Hqp]. split; [done|].
    intros Hq0. by apply Hkeep, Hqp.
Qed.

Lemma wellFormed_write fs p bytes :
  wellFormed fs → wellFormed (Write p bytes fs).
Proof.
  intros Hwf q m Hq. unfold Write in *.
  assert (∀ d, dirAt fs d = true → dirAt (Write p bytes fs) d = true) as Hkeep.
  { intros d Hd. unfold dirAt, Write in *.
    destruct (decide (p = d)) as [<-|Hpd].
    - rewrite lookup_alter_eq. by destruct (fs !! p) as [[]|].
    - by rewrite lookup_alter_ne. }
  destruct (decide (p = q)) as [<-|Hpq].
  - rewrite lookup_alter_eq in Hq.
    destruct (fs !! p) as [n|] eqn:Hp; [|done].
    destruct (Hwf p n Hp) as [Hn Hpar]. split; [done|].
    intros Hne. by apply Hkeep, Hpar.
  - rewrite lookup_alter_ne in Hq by done.
    destruct (Hwf q m Hq) as [Hn Hpar]. split; [done|].
    intros Hne. by apply Hkeep, Hpar.
Qed.

Lemma Mkdir_wellFormed p perm fs :
  wellFormed fs → isNames p → wellFormed (Mkdir p perm fs).2.
Proof.
  intros Hwf Hnames. unfold Mkdir. destruct (fs !! p) eqn:Hp; [done|].
  destruct p as [|c p]; [done|].
  destruct (fs !! removelast (c :: p)) as [[]|] eqn:Hpar; try done.
  apply wellFormed_insert; try done. unfold dirAt. by rewrite Hpar.
Qed.

Lemma MkdirAllUp_wellFormed rname perm fs :
  wellFormed fs → isNames (rev rname) → wellFormed (MkdirAllUp rname perm fs).2.
Proof.
  revert fs. induction rname as [|c rname IH]; intros fs Hwf Hnames.
  - cbn [MkdirAllUp]. destruct (fs !! rev []) as [[]|]; try done.
    pose proof (Mkdir_wellFormed (rev []) perm fs Hwf Hnames) as Hm.
    destruct (Mkdir (rev []) perm fs) as [[e|] fs2]; [|done].
    by destruct (fs2 !! rev []) as [[]|].
  - cbn [MkdirAllUp]. destruct (fs !! rev (c :: rname)) as [[]|]; try done.
    assert (isNames (rev rname)) as Hparent.
    { simpl in Hnames. unfold isNames in *. by apply Forall_app in Hnames as [? _]. }
    specialize (IH fs Hwf Hparent).
    destruct (MkdirAllUp rname perm fs) as [[e|] fs1]; [done|].
    pose proof (Mkdir_wellFormed (rev (c :: rname)) perm fs1 IH Hnames) as Hm.
    destruct (Mkdir (rev (c :: rname)) perm fs1) as [[e|] fs2]; [|done].
    by destruct (fs2 !! rev (c :: rname)) as [[]|].
Qed.

Lemma MkdirAll_wellFormed p perm fs :
  wellFormed fs → isNames p → wellFormed (MkdirAll p perm fs).2.
Proof.
  intros Hwf Hp. apply MkdirAllUp_wellFormed; [done|]. by rewrite rev_involutive.
Qed.

Lemma copyFile_wellFormed src dst (tmplData : TemplateData) fs :
  wellFormed fs → isNames dst → wellFormed (copyFile src dst tmplData fs).2.
Proof.
  intros Hwf Hnames. unfold copyFile. destruct (Open src fs); [done|].
  unfold OpenFileExcl. destruct (fs !! dst) eqn:Hd; [done|].
  destruct dst as [|c dst]; [done|].
  destruct (fs !! removelast (c :: dst)) as [[]|] eqn:Hpar; try done.
  assert (wellFormed (<[c :: dst := File perm0660 EmptyString]> fs)) as Hwf1.
  { apply wellFormed_insert; try done. unfold dirAt. by rewrite Hpar. }
  destruct (size tmplData =? 0)%nat.
  - destruct (Read _ _); [done|]. by apply wellFormed_write.
  - destruct (Read _ _) as [|buf]; [done|].
    destruct (Template.Parse buf) as [tmpl| |]; try done.
    destruct (Template.Execute tmpl tmplData) as [out [e|]|]; try done;
      by apply wellFormed_write.
Qed.

Lemma forEntries_invariant (Q : FS → Prop) body entries fs :
  (∀ e fs, Q fs → Q (body e fs).2) → Q fs → Q (forEntries body entries fs).2.
Proof.
  intros Hbody. revert fs. induction entries as [|e entries IH]; intros fs HQ; [done|].
  simpl. specialize (Hbody e fs HQ). destruct (body e fs) as [[] fs1]; try done.
  by apply IH.
Qed.

Lemma checkDirs_None src dst fs :
  checkDirs [src; dst] dst fs = None → dirAt fs src = true ∧ dirAt fs dst = true.
Proof.
  unfold checkDirs, Stat, dirAt.
  destruct (fs !! src) as [[]|]; try done. by destruct (fs !! dst) as [[]|].
Qed.

Lemma dirAt_names fs p : wellFormed fs → dirAt fs p = true → isNames p.
Proof.
  unfold dirAt. intros Hwf Hp. destruct (fs !! p) as [n|] eqn:Hn; [|done].
  by destruct (Hwf p n Hn).
Qed.

Lemma CopyDir2_wellFormed fuel src dst rename (tmplData : TemplateData) fs :
  wellFormed fs → wellFormed (CopyDir2 fuel src dst rename tmplData fs).2.
Proof.
  revert src dst fs. induction fuel as [|fuel IH]; intros src dst fs Hwf; [done|].
  rewrite CopyDir2_unfold.
  destruct (checkDirs _ _ _) eqn:Hcheck; [done|]. cbn zeta.
  apply checkDirs_None in Hcheck as [_ Hdst].
  assert (isNames (Filepath.Join dst (rename (Filepath.Base src)))) as Htgt.
  { apply Join_names. by apply (dirAt_names fs). }
  pose proof (MkdirAll_wellFormed _ perm0770 fs Hwf Htgt) as Hm.
  destruct (MkdirAll _ _ _) as [[e|] fs1]; [done|].
  destruct (ReadDir src fs1) as [e|entries]; [done|].
  apply forEntries_invariant; [|done].
  intros e fs2 Hwf2. unfold copyEntry. destruct (IsDir e); [by apply IH|].
  destruct (fileName _ _ _); [done|].
  apply copyFile_wellFormed; [done|]. by apply Join_names.
Qed.

End wellFormed_facts.

(** X6: on a well-formed store [CopyDir2] leaves a well-formed store,
    whatever it returns: every path it creates is made of path components
    and lies in a directory. *)
Theorem CopyDir2_keeps_the_store_well_formed
    (fuel : nat) (src dst : path) (rename : RenameFn) (tmplData : TemplateData)
    (fs : FS) :
  wellFormed fs → wellFormed (CopyDir2 fuel src dst rename tmplData fs).2.
Proof. apply CopyDir2_wellFormed. Qed.

Lemma CopyDir2_keeps_the_store_well_formed_witness :
  wellFormed (CopyDir2 3 ["src"] ["dst"] DotRename {[ "name" := "Ann" ]} fsLetter).2.
Proof.
  apply CopyDir2_keeps_the_store_well_formed.
  apply wellFormedb_spec. vm_compute. reflexivity.
Defined.

(** X7: a call never removes or changes a node: whatever it returns, every
    path that held a node before holds the same node after. The source tree
    is read, never written. *)
Theorem CopyDir2_only_adds
    (fuel : nat) (src dst : path) (rename : RenameFn) (tmplData : TemplateData)
    (fs : FS) (p : path) (n : node) :
  fs !! p = Some n →
  (CopyDir2 fuel src dst rename tmplData fs).2 !! p = Some n.
Proof.
  intros Hp. apply (lookup_weaken fs); [done|]. apply CopyDir2_grows.
Qed.

Lemma CopyDir2_only_adds_witness :
  (CopyDir2 3 ["src"] ["dst"] DotRename {[ "name" := "Ann" ]} fsLetter).2
    !! ["src"; "letter"] = Some (File 0x1a4 "Dear {{.name}}, {{.nope}} bye").
Proof. apply CopyDir2_only_adds. reflexivity. Defined.

(** X8: when the target name is taken by a regular file, the call fails at
    [MkdirAll] with [ENOTDIR] and changes nothing. *)
Theorem target_taken_by_a_file
    (fuel : nat) (src dst : path) (rename : RenameFn) (tmplData : TemplateData)
    (fs : FS) (perm : N) (data : string) :
  dirAt fs src = true → dirAt fs dst = true →
  let tgtDir := Filepath.Join dst (rename (Filepath.Base src)) in
  fs !! tgtDir = Some (File perm data) →
  CopyDir2 (S fuel) src dst rename tmplData fs =
    (Failed (ErrMakingDstDir (mkPathError "mkdir" tgtDir ENOTDIR)), fs).
Proof.
  intros Hsrc Hdst tgtDir Htgt. rewrite CopyDir2_unfold, checkDirs_ok by done.
  cbn zeta. fold tgtDir. unfold MkdirAll.
  destruct (rev tgtDir) as [|c r] eqn:Hrev; cbn [MkdirAllUp];
    rewrite <- Hrev, rev_involutive, Htgt; done.
Qed.

Lemma target_taken_by_a_file_witness :
  CopyDir2 1 ["src"] ["dst"; "src"] (λ _, "a") ∅ fsTaken =
    (Failed (ErrMakingDstDir (mkPathError "mkdir" ["dst"; "src"; "a"] ENOTDIR)),
     fsTaken).
Proof.
  apply (target_taken_by_a_file 0 ["src"] ["dst"; "src"] (λ _, "a") ∅ fsTaken
           0x1a4 "old"); reflexivity.
Defined.

(** ** A destination inside the source *)

Section inside.
Implicit Types (fs : FS) (p : path).

Lemma wellFormed_prefix_dir fs p (k : list string) :
  wellFormed fs → is_Some (fs !! (p ++ k)) → k ≠ [] → dirAt fs p = true.
Proof.
  intros Hwf. induction k as [|x k IH] using rev_ind; intros [n Hn] Hne; [done|].
  destruct (Hwf _ _ Hn) as [_ Hpar]. rewrite app_assoc, removelast_last in Hpar.
  assert (dirAt fs (p ++ k) = true) as Hd.
  { apply Hpar. intros H. by apply app_eq_nil in H as [_ ?]. }
  destruct k as [|y k]; [by rewrite app_nil_r in Hd|].
  apply IH; [|done]. unfold dirAt in Hd.
  by destruct (fs !! (p ++ y :: k)) as [[]|].
Qed.

Lemma MkdirAllUp_success rname perm fs fs' :
  MkdirAllUp rname perm fs = (None, fs') → dirAt fs' (rev rname) = true.
Proof.
  assert (∀ p fs0 fs1, Mkdir p perm fs0 = (None, fs1) → dirAt fs1 p = true)
    as Hmk.
  { intros p fs0 fs1. unfold Mkdir. destruct (fs0 !! p); [done|].
    destruct p as [|c p]; [done|].
    destruct (fs0 !! removelast (c :: p)) as [[]|]; try done.
    intros [= <-]. unfold dirAt. by rewrite lookup_insert_eq. }
  assert (∀ p fs0, (match Mkdir p perm fs0 with
                    | (Some e, fs2) =>
                        match fs2 !! p with
                        | Some (Dir _) => (None, fs2)
                        | _ => (Some e, fs2)
                        end
                    | r => r
                    end) = (None, fs') → dirAt fs' p = true) as Hstep.
  { intros p fs0. destruct (Mkdir p perm fs0) as [[e|] fs2] eqn:Hm.
    - unfold dirAt. destruct (fs2 !! p) as [[]|] eqn:Hp; try done.
      intros [= <-]. by rewrite Hp.
    - intros [= <-]. by apply (Hmk _ _ _ Hm). }
  destruct rname as [|c rname]; cbn [MkdirAllUp].
  - destruct (fs !! rev []) as [[]|] eqn:Hp; try done.
    + intros [= <-]. unfold dirAt. by rewrite Hp.
    + apply Hstep.
  - destruct (fs !! rev (c :: rname)) as [[]|] eqn:Hp; try done.
    + intros [= <-]. unfold dirAt. by rewrite Hp.
    + destruct (MkdirAllUp rname perm fs) as [[e|] fs1]; [done|]. apply Hstep.
Qed.

Lemma forEntries_never_done (Q : FS → Prop) body entries fs x :
  x ∈ entries → Q fs →
  (∀ e fs, Q fs → Q (body e fs).2) →
  (∀ fs, Q fs → (body x fs).1 ≠ Done) →
  (forEntries body entries fs).1 ≠ Done.
Proof.
  intros Hx HQ Hbody Hnot. revert fs HQ.
  induction entries as [|e entries IH]; intros fs HQ; [by apply elem_of_nil in Hx|].
  simpl. specialize (Hbody e fs HQ). destruct (body e fs) as [o fs1] eqn:Hb.
  apply elem_of_cons in Hx as [->|Hx].
  - specialize (Hnot fs HQ). rewrite Hb in Hnot. by destruct o.
  - destruct o; try done. by apply IH.
Qed.

Lemma CopyDir2_inside fuel rename (tmplData : TemplateData) :
  (∀ x, Filepath.isName x = true → Filepath.isName (rename x) = true) →
  ∀ src dst fs,
    wellFormed fs → src ≠ [] → src `prefix_of` dst →
    (CopyDir2 fuel src dst rename tmplData fs).1 ≠ Done.
Proof.
  intros Hrename. induction fuel as [|fuel IH]; intros src dst fs Hwf Hsrc Hpre; [done|].
  rewrite CopyDir2_unfold. destruct (checkDirs _ _ _) eqn:Hcheck; [done|].
  cbn zeta. apply checkDirs_None in Hcheck as [Hsrcdir Hdstdir].
  destruct src as [|b src _] using rev_ind; [done|]. rewrite Base_snoc.
  assert (Filepath.isName b = true) as Hb.
  { apply (isNames_last src). by apply (dirAt_names fs). }
  rewrite Join_name by auto.
  set (r := rename b). set (tgt := dst ++ [r]).
  assert (isNames tgt) as Htgtn.
  { apply Forall_app. split; [by apply (dirAt_names fs)|].
    apply Forall_singleton. by apply Hrename. }
  pose proof (MkdirAll_wellFormed tgt perm0770 fs Hwf Htgtn) as Hwf1.
  pose proof (MkdirAll_grows tgt fs) as [Hs1 _].
  destruct (MkdirAll tgt perm0770 fs) as [[e|] fs1] eqn:Hm; [done|].
  simpl in Hwf1, Hs1. apply MkdirAllUp_success in Hm. rewrite rev_involutive in Hm.
  apply (dirAt_weaken _ _ _ Hs1) in Hsrcdir. unfold dirAt in Hsrcdir.
  destruct (fs1 !! (src ++ [b])) as [[perm|]|] eqn:Hsrc1; [|discriminate Hsrcdir..].
  destruct Hpre as [k Hk].
  assert (∃ d k', tgt = ((src ++ [b]) ++ [d]) ++ k') as (d & k' & Htgt).
  { unfold tgt. rewrite Hk. destruct k as [|d k].
    - exists r, []. by rewrite !app_nil_r.
    - exists d, (k ++ [r]). by rewrite <- !app_assoc. }
  assert (Filepath.isName d = true) as Hd.
  { rewrite Htgt in Htgtn. apply Forall_app in Htgtn as [Htgtn _].
    by apply isNames_last in Htgtn. }
  assert (dirAt fs1 ((src ++ [b]) ++ [d]) = true) as Hddir.
  { destruct k' as [|y k'].
    - by rewrite app_nil_r in Htgt; rewrite <- Htgt.
    - apply (wellFormed_prefix_dir fs1 _ (y :: k')); [done| |done].
      rewrite <- Htgt. unfold dirAt in Hm. by destruct (fs1 !! tgt). }
  unfold dirAt in Hddir.
  destruct (fs1 !! ((src ++ [b]) ++ [d])) as [[dperm|]|] eqn:Hd1;
    [|discriminate Hddir..].
  destruct (ReadDir_elem (src ++ [b]) fs1 perm d (Dir dperm) Hsrc1 Hd1)
    as (entries & -> & Hin).
  apply (forEntries_never_done wellFormed _ _ _ _ Hin Hwf1).
  - intros e fs2 Hwf2. unfold copyEntry.
    destruct (IsDir e); [by apply CopyDir2_wellFormed|].
    destruct (fileName _ _ _); [done|].
    apply copyFile_wellFormed; [done|]. by apply Join_names.
  - intros fs2 Hwf2. unfold copyEntry. cbn [IsDir Name isDir].
    rewrite Join_name by done. apply IH; [done| |].
    + intros H. by apply app_eq_nil in H as [_ ?].
    + exists k'. done.
Qed.

End inside.

(** X9: copying a directory into itself, or into a directory below it, never
    succeeds: the target directory is created inside the source and the walk
    follows it down. (Here [rename] keeps path components path
    components.) *)
Theorem copy_into_itself_never_succeeds
    (fuel : nat) (src dst : path) (rename : RenameFn) (tmplData : TemplateData)
    (fs : FS) :
  wellFormed fs →
  src ≠ [] →
  (∀ x, Filepath.isName x = true → Filepath.isName (rename x) = true) →
  src `prefix_of` dst →
  (CopyDir2 fuel src dst rename tmplData fs).1 ≠ Done.
Proof. intros Hwf Hsrc Hrename Hpre. by apply CopyDir2_inside. Qed.

Lemma copy_into_itself_never_succeeds_witness :
  (CopyDir2 7 ["src"] ["src"] IdentityRename ∅ fsNotes).1 ≠ Done.
Proof.
  apply copy_into_itself_never_succeeds.
  - apply wellFormedb_spec. vm_compute. reflexivity.
  - discriminate.
  - intros x Hx. exact Hx.
  - reflexivity.
Defined.

(** ** Templates without actions, and templates that do not parse *)

Section lexer_facts.
Import GoStrings.

Lemma Index_None_tail (c : ascii) (s sub : string) :
  Index (String c s) sub = None →
  HasPrefix (String c s) sub = false ∧ Index s sub = None.
Proof.
  cbn [Index]. destruct (HasPrefix (String c s) sub); [done|].
  by destruct (Index s sub).
Qed.

Lemma rev_cons_app (c : ascii) (acc s : string) :
  String.rev (String c acc) +:+ s = String.rev acc +:+ String c s.
Proof. unfold String.rev. cbn [String.rev_app]. by rewrite !rev_app_app. Qed.

(** A text without ["{{"] is one text item. *)
Lemma lex_plain (acc s : string) :
  Index s "{{" = None →
  Template.lex false acc s = [Template.ItemText (String.rev acc +:+ s)].
Proof.
  revert acc. induction s as [|c s IH]; intros acc Hs.
  - simpl. by rewrite app_empty_r.
  - apply Index_None_tail in Hs as [Hp Hs]. cbn [Template.lex].
    destruct s as [|d s].
    + rewrite IH by done. by rewrite rev_cons_app.
    + destruct (Ascii.eqb c "{" && Ascii.eqb d "{") eqn:Hcd.
      * apply andb_true_iff in Hcd as [Hc Hd].
        apply Ascii.eqb_eq in Hc, Hd. subst. discriminate Hp.
      * rewrite IH by done. by rewrite rev_cons_app.
Qed.



Lemma Parse_plain (s : string) :
  Index s "{{" = None →
  Template.Parse s =
    Template.Parsed (match s with
                     | EmptyString => []
                     | _ => [Template.TextNode s]
                     end).
Proof.
  intros Hs. unfold Template.Parse. rewrite lex_plain by done. done.
Qed.


Lemma render_plain (s : string) (tmplData : TemplateData) :
  Index s "{{" = None →
  Template.allb (λ c, negb (Ascii.eqb c "<"%char)) s = true →
  ∃ tmpl, Template.Parse s = Template.Parsed tmpl ∧
          Template.Execute tmpl tmplData = Template.Wrote s None.
Proof.
  intros Hs Hlt. rewrite Parse_plain by done. eexists. split; [done|].
  destruct s as [|c s]; [done|].
  unfold Template.Execute. cbn [forallb Template.textContext].
  rewrite Hlt. cbn [andb Template.execute]. by rewrite app_empty_r.
Qed.

End lexer_facts.

(** X10: with template data, a regular file whose name (without the
    [.template] suffix) and whose content hold no ["{{"] and no ['<'] is
    copied byte for byte, under its name without the suffix. *)
Theorem plain_file_under_template_data
    (recurse : path → path → FS → outcome * FS) (src tgtDir : path)
    (tmplData : TemplateData) (name : string) (fs : FS)
    (perm m : N) (content : string) :
  tmplData ≠ ∅ →
  let stem := GoStrings.TrimSuffix name ".template" in
  Filepath.isName name = true → Filepath.isName stem = true →
  GoStrings.Index stem "{{" = None →
  Template.allb (λ c, negb (Ascii.eqb c "<"%char)) stem = true →
  GoStrings.Index content "{{" = None →
  Template.allb (λ c, negb (Ascii.eqb c "<"%char)) content = true →
  fs !! (src ++ [name]) = Some (File perm content) →
  fs !! tgtDir = Some (Dir m) →
  fs !! (tgtDir ++ [stem]) = None →
  copyEntry recurse src tgtDir tmplData (mkFileInfo name false) fs =
    (Done, <[tgtDir ++ [stem] := File perm0660 content]> fs).
Proof.
  intros Hne stem Hname Hstem Hs1 Hs2 Hc1 Hc2 Hsrc Htgt Hfresh.
  unfold copyEntry, fileName. cbn [IsDir Name].
  rewrite (size_non_empty _ Hne). cbn [negb]. fold stem.
  destruct (render_plain stem tmplData Hs1 Hs2) as (t1 & -> & ->).
  rewrite !Join_name by done.
  unfold copyFile, Open. rewrite Hsrc.
  rewrite (OpenFileExcl_fresh _ _ _ _ m) by done.
  rewrite (size_non_empty _ Hne). unfold Read.
  rewrite lookup_insert_ne by congruence. rewrite Hsrc.
  destruct (render_plain content tmplData Hc1 Hc2) as (t2 & -> & ->).
  by rewrite Write_created.
Qed.

Lemma plain_file_under_template_data_witness :
  copyEntry (λ _ _ fs, (Done, fs)) ["src"] ["dst"] {[ "k" := "v" ]}
    (mkFileInfo "a" false) fsTaken =
  (Done, <[["dst"; "a"] := File perm0660 "new"]> fsTaken).
Proof.
  apply (plain_file_under_template_data _ ["src"] ["dst"] {[ "k" := "v" ]} "a"
           fsTaken 0x1a4 0x1ed "new"); try reflexivity.
  vm_compute. discriminate.
Defined.



(** X12: a file name that refers to a key the data lacks stops the call
    before the file is opened: the step returns the error of executing the
    name and leaves the store as it was, and the call never succeeds. *)
Theorem missing_key_in_a_file_name
    (fuel : nat) (src dst : path) (rename : RenameFn) (tmplData : TemplateData)
    (fs : FS) (rel : list string) (name : string)
    (tmpl : list Template.node) (key : string) :
  tmplData ≠ ∅ →
  isNames (rel ++ [name]) →
  (∀ i : nat, (i ≤ length rel)%nat → dirAt fs (src ++ take i rel) = true) →
  (∃ perm bytes, fs !! (src ++ rel ++ [name]) = Some (File perm bytes)) →
  Template.Parse (GoStrings.TrimSuffix name ".template") = Template.Parsed tmpl →
  forallb Template.textContext tmpl = true →
  Template.FieldNode key ∈ tmpl →
  tmplData !! key = None →
  (CopyDir2 fuel src dst rename tmplData fs).1 ≠ Done ∧
  ∀ (recurse : path → path → FS → outcome * FS) (tgtDir : path) (fs' : FS),
    ∃ e,
      copyEntry recurse (src ++ rel) tgtDir tmplData (mkFileInfo name false) fs' =
        (Failed (ErrExecutingFileName (src ++ rel ++ [name]) tmplData e), fs').
Proof.
  intros Hne Hnames Hdirs Hfile Hparse Htext Hin Hkey.
  destruct (execute_missing_key tmpl tmplData key Hin Hkey) as (out & e & Hex).
  assert (∀ recurse tgtDir fs',
    copyEntry recurse (src ++ rel) tgtDir tmplData (mkFileInfo name false) fs' =
      (Failed (ErrExecutingFileName (src ++ rel ++ [name]) tmplData e), fs'))
    as Hstep.
  { intros recurse tgtDir fs'. unfold copyEntry, fileName. cbn [IsDir Name].
    rewrite Join_name, <- app_assoc by (by apply (isNames_last rel)).
    rewrite (size_non_empty _ Hne). cbn [negb]. rewrite Hparse.
    unfold Template.Execute. by rewrite Htext, Hex. }
  split; [|by eauto].
  apply (CopyDir2_reaches _ _ _ _ _ _ rel name); [done..|].
  intros recurse fs' _. by rewrite Hstep.
Qed.

Lemma missing_key_in_a_file_name_witness :
  (CopyDir2 1 ["src"] ["dst"] IdentityRename {[ "k" := "v" ]} fsNotes).1 ≠ Done.
Proof.
  refine (proj1 (missing_key_in_a_file_name 1 ["src"] ["dst"] IdentityRename
    {[ "k" := "v" ]} fsNotes [] "note-{{.who}}.txt"
    [Template.TextNode "note-"; Template.FieldNode "who"; Template.TextNode ".txt"]
    "who" _ _ _ _ _ _ _ _)).
  - vm_compute. discriminate.
  - repeat constructor.
  - intros i Hi. assert (i = 0) as -> by (simpl in Hi; lia). reflexivity.
  - exists 0x1a4%N, "to {{.who}}". reflexivity.
  - reflexivity.
  - reflexivity.
  - rewrite !elem_of_cons. auto.
  - reflexivity.
Defined.

(** ** [DotRename] on path components *)

Section DotRename_names.
Import GoStrings.

Lemma allb_app (f : ascii → bool) (a b : string) :
  Template.allb f (a +:+ b) = Template.allb f a && Template.allb f b.
Proof.
  induction a as [|c a IH]; [done|]. simpl. rewrite IH. by destruct (f c).
Qed.

Lemma dot_between (pre post : string) :
  pre +:+ "." +:+ post ≠ EmptyString ∧
  (pre +:+ "." +:+ post = "." → pre = EmptyString ∧ post = EmptyString) ∧
  (pre +:+ "." +:+ post = ".." →
   (pre = "." ∧ post = EmptyString) ∨ (pre = EmptyString ∧ post = ".")).
Proof.
  split_and!.
  - by destruct pre.
  - destruct pre as [|c pre]; simpl.
    + intros [= ->]. done.
    + intros [= -> H]. by destruct pre.
  - destruct pre as [|c [|d pre]]; simpl.
    + intros [= ->]. by right.
    + intros [= -> ->]. by left.
    + intros [= -> -> H]. by destruct pre.
Qed.

End DotRename_names.

(** X13: [DotRename] maps a path component to a path component, except for
    the three names it turns into ["."] or [".."]: ["dot."], [".dot."] and
    ["dot.."]. *)
Theorem DotRename_keeps_path_components (name : string) :
  Filepath.isName name = true →
  name ≠ "dot." → name ≠ ".dot." → name ≠ "dot.." →
  Filepath.isName (DotRename name) = true.
Proof.
  intros Hname H1 H2 H3. unfold DotRename. rewrite Replace_once by done.
  destruct (GoStrings.Index name "dot.") as [j|] eqn:Hj; [|done].
  apply Index_Some_split in Hj.
  set (pre := GoStrings.take j name) in *.
  set (post := GoStrings.drop (j + String.length "dot.") name) in *.
  destruct (dot_between pre post) as (Hne & Hdot & Hdotdot).
  unfold Filepath.isName in *.
  repeat (apply andb_true_iff in Hname as [Hname ?]).
  repeat (apply andb_true_iff; split).
  - apply negb_true_iff, String.eqb_neq. done.
  - apply negb_true_iff, String.eqb_neq. intros [-> ->]%Hdot. by apply H1.
  - apply negb_true_iff, String.eqb_neq.
    intros [[Hp Hq]|[Hp Hq]]%Hdotdot; rewrite Hp, Hq in Hj; [by apply H2 | by apply H3].
  - match goal with
    | H : Template.allb _ name = true |- _ => rewrite Hj in H; rename H into Hall
    end.
    rewrite !allb_app in *. apply andb_true_iff in Hall as [Ha Hb].
    apply andb_true_iff in Hb as [_ Hb]. by rewrite Ha, Hb.
Qed.

Lemma DotRename_keeps_path_components_witness :
  Filepath.isName (DotRename "dot.git") = true.
Proof. apply DotRename_keeps_path_components; [reflexivity|discriminate..]. Defined.

Example DotRename_loses_path_components :
  DotRename "dot." = "." ∧ DotRename ".dot." = ".." ∧ DotRename "dot.." = ".." ∧
  Filepath.Join ["dst"] (DotRename "dot.") = ["dst"] ∧
  Filepath.Join ["dst"] (DotRename "dot..") = [].
Proof. vm_compute. done. Qed.

(** ** Copying twice *)

Section repeated_copy.
Implicit Types (fs : FS) (p : path).

Lemma forEntries_done body entries fs fs' x :
  x ∈ entries →
  (∀ e fs, fs ⊆ (body e fs).2) →
  forEntries body entries fs = (Done, fs') →
  ∃ fsa fsb, fs ⊆ fsa ∧ body x fsa = (Done, fsb) ∧ fsb ⊆ fs'.
Proof.
  intros Hx Hbody. revert fs.
  induction entries as [|e entries IH]; intros fs Hdone; [by apply elem_of_nil in Hx|].
  simpl in Hdone. pose proof (Hbody e fs) as Hg.
  destruct (body e fs) as [o fs1] eqn:Hb. simpl in Hg.
  destruct o; try done.
  assert (fs1 ⊆ fs') as Hrest.
  { rewrite <- (f_equal snd Hdone : (forEntries body entries fs1).2 = fs').
    clear -Hbody. revert fs1. induction entries as [|e' entries IH]; intros fs1; [done|].
    simpl. pose proof (Hbody e' fs1) as Hg. destruct (body e' fs1) as [[] fs2]; try done.
    simpl in Hg. etrans; [done|apply IH]. }
  apply elem_of_cons in Hx as [->|Hx].
  - exists fs, fs1. done.
  - destruct (IH Hx fs1 Hdone) as (fsa & fsb & Ha & Hstep & Hb').
    exists fsa, fsb. split_and!; [by etrans|done..].
Qed.

Lemma copyFile_done_created src dst (tmplData : TemplateData) fs fs' :
  copyFile src dst tmplData fs = (Done, fs') → is_Some (fs' !! dst).
Proof.
  unfold copyFile. destruct (Open src fs) as [|srcFile]; [done|].
  destruct (OpenFileExcl dst perm0660 fs) as [|fs1] eqn:Hopen; [done|].
  apply OpenFileExcl_created in Hopen as [Hd ->].
  assert (∀ out, is_Some (Write dst out (<[dst := File perm0660 EmptyString]> fs) !! dst))
    as Hw.
  { intros out. rewrite Write_created, lookup_insert_eq. eauto. }
  destruct (size tmplData =? 0)%nat.
  - destruct (Read srcFile _); [done|]. intros [= <-]. apply Hw.
  - destruct (Read srcFile _) as [|buf]; [done|].
    destruct (Template.Parse buf) as [tmpl| |]; try done.
    destruct (Template.Execute tmpl tmplData) as [out [e|]|]; try done.
    intros [= <-]. apply Hw.
Qed.

(** After a call that succeeded, every regular file below [src] has its
    destination: the name was rendered and the path computed for it is
    taken. *)
Lemma CopyDir2_done_copied fuel src dst rename (tmplData : TemplateData) fs fs'
    rel name :
  isNames (rel ++ [name]) →
  (∀ i : nat, (i ≤ length rel)%nat → dirAt fs (src ++ take i rel) = true) →
  (∃ perm bytes, fs !! (src ++ rel ++ [name]) = Some (File perm bytes)) →
  CopyDir2 fuel src dst rename tmplData fs = (Done, fs') →
  ∃ rendered,
    fileName (src ++ rel ++ [name]) name tmplData = inr rendered ∧
    is_Some (fs' !! Filepath.Join (targetDir rename dst src rel) rendered).
Proof.
  revert src dst fs fs' rel.
  induction fuel as [|fuel IH]; intros src dst fs fs' rel Hnames Hdirs Hfile Hdone;
    [done|].
  rewrite CopyDir2_unfold in Hdone. destruct (checkDirs _ _ _); [done|].
  cbn zeta in Hdone.
  set (tgtDir := Filepath.Join dst (rename (Filepath.Base src))) in *.
  pose proof (MkdirAll_grows tgtDir fs) as [Hs1 _].
  destruct (MkdirAll tgtDir perm0770 fs) as [[e|] fs1]; [done|]. simpl in Hs1.
  pose proof (Hdirs 0 (Nat.le_0_l _)) as Hsrc. rewrite take_0, app_nil_r in Hsrc.
  apply (dirAt_weaken _ _ _ Hs1) in Hsrc. unfold dirAt in Hsrc.
  destruct (fs1 !! src) as [[perm|]|] eqn:Hsrc1; [|discriminate Hsrc..].
  assert (∀ e fs, fs ⊆ (copyEntry (λ src' dst', CopyDir2 fuel src' dst' rename tmplData)
                         src tgtDir tmplData e fs).2) as Hbody.
  { intros e fs2. apply copyEntry_grows. intros. apply CopyDir2_grows. }
  destruct rel as [|d rel].
  - destruct Hfile as (fperm & bytes & Hfile). rewrite app_nil_l in Hfile.
    destruct (ReadDir_elem src fs1 perm name (File fperm bytes) Hsrc1
                (lookup_weaken _ _ _ _ Hfile Hs1)) as (entries & Hrd & Hin).
    rewrite Hrd in Hdone.
    destruct (forEntries_done _ _ _ _ _ Hin Hbody Hdone)
      as (fsa & fsb & Ha & Hstep & Hb).
    unfold copyEntry in Hstep. cbn [IsDir Name isDir] in Hstep.
    assert (Filepath.isName name = true) as Hname by (by apply (isNames_last [])).
    rewrite Join_name in Hstep by done.
    destruct (fileName (src ++ [name]) name tmplData) as [o|rendered] eqn:Hfn.
    { injection Hstep as -> _. by apply fileName_not_done in Hfn. }
    exists rendered. split; [done|].
    apply copyFile_done_created in Hstep as [n Hn].
    exists n. by apply (lookup_weaken fsb).
  - pose proof (Hdirs 1 ltac:(simpl; lia)) as Hd.
    change (dirAt fs (src ++ [d]) = true) in Hd.
    apply (dirAt_weaken _ _ _ Hs1) in Hd. unfold dirAt in Hd.
    destruct (fs1 !! (src ++ [d])) as [[dperm|]|] eqn:Hd1; [|discriminate Hd..].
    destruct (ReadDir_elem src fs1 perm d (Dir dperm) Hsrc1 Hd1)
      as (entries & Hrd & Hin).
    rewrite Hrd in Hdone.
    destruct (forEntries_done _ _ _ _ _ Hin Hbody Hdone)
      as (fsa & fsb & Ha & Hstep & Hb).
    unfold copyEntry in Hstep. cbn [IsDir Name isDir] in Hstep.
    apply Forall_cons in Hnames as [Hdn Hnames].
    rewrite Join_name in Hstep by done.
    destruct (IH (src ++ [d]) tgtDir fsa fsb rel Hnames)
      as (rendered & Hfn & Hsome); [| |exact Hstep|].
    + intros i Hi. rewrite <- app_assoc. simpl.
      apply (dirAt_weaken fs); [by etrans|]. apply (Hdirs (S i)). simpl. lia.
    + destruct Hfile as (fperm & bytes & Hfile). exists fperm, bytes.
      rewrite <- app_assoc. simpl. apply (lookup_weaken fs); [done | by etrans].
    + exists rendered. rewrite <- app_assoc in Hfn. split; [done|].
      unfold targetDir in Hsome |- *. rewrite Base_snoc in Hsome. simpl.
      destruct Hsome as [n Hn]. exists n. by apply (lookup_weaken fsb).
Qed.

End repeated_copy.

(** X14: a copy that succeeded cannot be repeated. When the source holds a
    regular file, a second call with the same arguments on the store the
    first one left never succeeds: the file's destination exists. *)
Theorem second_copy_collides
    (fuel fuel' : nat) (src dst : path) (rename : RenameFn)
    (tmplData : TemplateData) (fs fs1 : FS) (rel : list string) (name : string) :
  isNames (rel ++ [name]) →
  (∀ i : nat, (i ≤ length rel)%nat → dirAt fs (src ++ take i rel) = true) →
  (∃ perm bytes, fs !! (src ++ rel ++ [name]) = Some (File perm bytes)) →
  CopyDir2 fuel src dst rename tmplData fs = (Done, fs1) →
  (CopyDir2 fuel' src dst rename tmplData fs1).1 ≠ Done.
Proof.
  intros Hnames Hdirs Hfile Hdone.
  destruct (CopyDir2_done_copied _ _ _ _ _ _ _ _ _ Hnames Hdirs Hfile Hdone)
    as (rendered & Hfn & Hsome).
  pose proof (CopyDir2_grows fuel src dst rename tmplData fs) as [Hsub _].
  rewrite Hdone in Hsub. simpl in Hsub.
  destruct Hfile as (perm & bytes & Hfile).
  apply (CopyDir2_reaches _ _ _ _ _ _ rel name); [done|..].
  - intros i Hi. apply (dirAt_weaken fs); auto.
  - exists perm, bytes. by apply (lookup_weaken fs).
  - intros recurse fs' Hs. unfold copyEntry. cbn [IsDir Name].
    rewrite Join_name, <- app_assoc by (by apply (isNames_last rel)).
    rewrite Hfn, copyFile_collision; [done|..].
    + exists (File perm bytes). apply (lookup_weaken fs); [done|by etrans].
    + destruct Hsome as [n Hn]. exists n. by apply (lookup_weaken fs1).
Qed.

Lemma second_copy_collides_witness :
  ∃ fs1, CopyDir2 2 ["src"] ["dst"] DotRename ∅ fsRepo = (Done, fs1) ∧
         (CopyDir2 2 ["src"] ["dst"] DotRename ∅ fs1).1 ≠ Done.
Proof.
  eexists. split; [vm_compute; reflexivity|].
  apply (second_copy_collides 2 2 ["src"] ["dst"] DotRename ∅ fsRepo _
           ["dot.git"] "config").
  - repeat constructor.
  - intros i Hi. simpl in Hi.
    assert (i = 0 ∨ i = 1) as [-> | ->] by lia; reflexivity.
  - eexists _, _. reflexivity.
  - vm_compute. reflexivity.
Defined.

(** ** Where the copy goes *)

Section confined.
Implicit Types (fs : FS) (p : path).

Lemma forEntries_invariant_elem (Q : FS → Prop) body entries fs :
  (∀ e fs, e ∈ entries → Q fs → Q (body e fs).2) →
  Q fs → Q (forEntries body entries fs).2.
Proof.
  revert fs. induction entries as [|e entries IH]; intros fs Hbody HQ; [done|].
  simpl. pose proof (Hbody e fs ltac:(left) HQ) as Hstep.
  destruct (body e fs) as [[] fs1]; try done.
  apply IH; [|done]. intros e' fs' He'. apply Hbody. by right.
Qed.

Lemma MkdirAll_below_dir d (r : string) perm fs :
  dirAt fs d = true →
  ∀ q, fs !! q = None → is_Some ((MkdirAll (d ++ [r]) perm fs).2 !! q) →
       q = d ++ [r].
Proof.
  intros Hd q Hq. unfold dirAt in Hd.
  destruct (fs !! d) as [[m|]|] eqn:Hdm; [|done..].
  destruct (fs !! (d ++ [r])) as [n|] eqn:Hn.
  - unfold MkdirAll. rewrite rev_unit. cbn [MkdirAllUp].
    assert (rev (r :: rev d) = d ++ [r]) as ->
      by (simpl; by rewrite rev_involutive).
    rewrite Hn. destruct n; simpl; rewrite Hq; by intros [].
  - rewrite (MkdirAll_fresh _ _ _ _ m) by done. simpl.
    destruct (decide (d ++ [r] = q)) as [<-|Hne]; [done|].
    rewrite lookup_insert_ne, Hq by done. by intros [].
Qed.

Lemma wellFormed_Base fs p :
  wellFormed fs → dirAt fs p = true → p ≠ [] →
  Filepath.isName (Filepath.Base p) = true.
Proof.
  intros Hwf Hd Hne. pose proof (dirAt_names fs p Hwf Hd) as Hn.
  destruct (exists_last Hne) as (p' & x & ->).
  rewrite Base_snoc. by apply (isNames_last p').
Qed.

Lemma CopyDir2_confined fuel rename :
  (∀ x, Filepath.isName x = true → Filepath.isName (rename x) = true) →
  ∀ src dst fs,
    wellFormed fs → src ≠ [] →
    ∀ q, fs !! q = None →
         is_Some ((CopyDir2 fuel src dst rename ∅ fs).2 !! q) →
         (dst ++ [rename (Filepath.Base src)]) `prefix_of` q.
Proof.
  intros Hrename.
  induction fuel as [|fuel IH]; intros src dst fs Hwf Hsrc q Hq.
  { simpl. rewrite Hq. by intros []. }
  rewrite CopyDir2_unfold. destruct (checkDirs _ _ _) eqn:Hcheck.
  { simpl. rewrite Hq. by intros []. }
  cbn zeta. apply checkDirs_None in Hcheck as [Hsrcdir Hdstdir].
  assert (Filepath.isName (rename (Filepath.Base src)) = true) as Hrn.
  { apply Hrename. by apply (wellFormed_Base fs). }
  rewrite Join_name by done.
  set (tgtDir := dst ++ [rename (Filepath.Base src)]).
  pose proof (MkdirAll_below_dir dst (rename (Filepath.Base src)) perm0770 fs
                Hdstdir) as Hmk.
  fold tgtDir in Hmk.
  pose proof (MkdirAll_wellFormed tgtDir perm0770 fs Hwf) as Hwf1.
  destruct (MkdirAll tgtDir perm0770 fs) as [[e|] fs1].
  { simpl in *. intros Hs. by rewrite (Hmk q Hq Hs). }
  simpl in Hmk, Hwf1.
  assert (isNames tgtDir) as Htgtn.
  { unfold tgtDir, isNames. rewrite Forall_app, Forall_singleton.
    split; [by apply (dirAt_names fs)|done]. }
  specialize (Hwf1 Htgtn). destruct (ReadDir src fs1) as [e|entries] eqn:Hrd.
  { simpl. intros Hs. by rewrite (Hmk q Hq Hs). }
  set (Q := λ fs2 : FS, wellFormed fs2 ∧
                 ∀ q, fs !! q = None → is_Some (fs2 !! q) → tgtDir `prefix_of` q).
  assert (Q fs1) as HQ1.
  { split; [done|]. intros q' Hq' Hs. by rewrite (Hmk q' Hq' Hs). }
  enough (Q (forEntries
               (copyEntry (λ src' dst', CopyDir2 fuel src' dst' rename ∅)
                  src tgtDir ∅) entries fs1).2) as [_ HQ] by (by apply HQ).
  apply forEntries_invariant_elem; [|done].
  intros e fs2 He [Hwf2 Hin2].
  assert (Filepath.isName (Name e) = true) as Hname.
  { unfold ReadDir in Hrd. destruct (fs1 !! src) as [[]|]; try done.
    injection Hrd as <-. rewrite merge_sort_Permutation in He.
    apply elem_of_entries in He as (n & Hn & _).
    destruct (Hwf1 _ _ Hn) as [Hnames _]. by apply (isNames_last src). }
  split.
  { unfold copyEntry. destruct (IsDir e); [by apply CopyDir2_wellFormed|].
    destruct (fileName _ _ _); [done|].
    apply copyFile_wellFormed; [done|]. by apply Join_names. }
  intros q' Hq'.
  destruct (fs2 !! q') as [n|] eqn:Hq2; [intros _; apply Hin2; eauto|].
  unfold copyEntry. rewrite Join_name by done. destruct (IsDir e).
  - intros Hs. etrans; [|apply (IH (src ++ [Name e]) tgtDir fs2 Hwf2); try done].
    + by apply prefix_app_r.
    + by destruct src.
  - unfold fileName. rewrite map_size_empty. cbn [Nat.eqb negb].
    rewrite Join_name by done.
    destruct (copyFile_store (src ++ [Name e]) (tgtDir ++ [Name e]) ∅ fs2)
      as [->|[_ [out ->]]].
    + rewrite Hq2. by intros [].
    + destruct (decide (tgtDir ++ [Name e] = q')) as [<-|Hne].
      * intros _. by apply prefix_app_r.
      * rewrite lookup_insert_ne, Hq2 by done. by intros [].
Qed.

End confined.

(** X15: without template data the copy stays below the target directory:
    whatever the call returns, every node it creates is the directory
    [dst/rename(base(src))] or lies below it. (Here the store is well
    formed and [rename] keeps path components path components.) *)
Theorem copy_without_template_data_stays_below_the_target
    (fuel : nat) (src dst : path) (rename : RenameFn) (fs : FS) (q : path) :
  wellFormed fs →
  src ≠ [] →
  (∀ x, Filepath.isName x = true → Filepath.isName (rename x) = true) →
  fs !! q = None →
  is_Some ((CopyDir2 fuel src dst rename ∅ fs).2 !! q) →
  (dst ++ [rename (Filepath.Base src)]) `prefix_of` q.
Proof.
  intros Hwf Hsrc Hrename Hq Hs. by apply (CopyDir2_confined fuel rename Hrename src dst fs).
Qed.

Lemma copy_without_template_data_stays_below_the_target_witness :
  ["dst"; "src"] `prefix_of` ["dst"; "src"; "README"].
Proof.
  apply (copy_without_template_data_stays_below_the_target
           2 ["src"] ["dst"] IdentityRename fsRepo).
  - apply wellFormedb_spec. vm_compute. reflexivity.
  - discriminate.
  - intros x Hx. exact Hx.
  - reflexivity.
  - vm_compute. eexists. reflexivity.
Defined.

Section traversal.
Implicit Types (fs : FS) (p : path).

Lemma Join_parent p (n : string) :
  Filepath.isName n = true →
  Filepath.Join p ("../" +:+ n) = removelast p ++ [n].
Proof.
  intros Hn. pose proof (Join_name (removelast p) n Hn) as Hj.
  unfold Filepath.Join in *.
  change (Filepath.split EmptyString ("../" +:+ n))
    with (".." :: Filepath.split EmptyString n).
  done.
Qed.

End traversal.

(** X16: the rendered name of a file is joined to the target directory as
    it is. A value that starts with ["../"] takes the file out of the
    target directory: the copy is created in the directory above it. *)
Theorem rendered_name_can_leave_the_target
    (recurse : path → path → FS → outcome * FS) (src tgtDir : path)
    (tmplData : TemplateData) (name key n : string) (fs : FS)
    (perm m m' : N) (content : string) :
  Filepath.isName name = true →
  Template.Parse (GoStrings.TrimSuffix name ".template") =
    Template.Parsed [Template.FieldNode key] →
  tmplData !! key = Some ("../" +:+ n) →
  Filepath.isName n = true → Template.htmlEscaper n = n →
  GoStrings.Index content "{{" = None →
  Template.allb (λ c, negb (Ascii.eqb c "<"%char)) content = true →
  fs !! (src ++ [name]) = Some (File perm content) →
  tgtDir ≠ [] →
  fs !! tgtDir = Some (Dir m) →
  fs !! removelast tgtDir = Some (Dir m') →
  fs !! (removelast tgtDir ++ [n]) = None →
  let created := removelast tgtDir ++ [n] in
  copyEntry recurse src tgtDir tmplData (mkFileInfo name false) fs =
    (Done, <[created := File perm0660 content]> fs) ∧
  ¬ (tgtDir `prefix_of` created).
Proof.
  intros Hname Hparse Hkey Hn Hesc Hc1 Hc2 Hsrc Hnil Htgt Hparent Hfresh created.
  assert (tmplData ≠ ∅) as Hne.
  { intros ->. by rewrite lookup_empty in Hkey. }
  split.
  - unfold copyEntry, fileName. cbn [IsDir Name].
    rewrite (size_non_empty _ Hne). cbn [negb]. rewrite Hparse.
    unfold Template.Execute.
    cbn [forallb Template.textContext andb Template.execute]. rewrite Hkey.
    change (Template.htmlEscaper ("../" +:+ n))
      with ("../" +:+ Template.htmlEscaper n).
    rewrite Hesc, app_empty_r, Join_name, Join_parent by done. fold created.
    unfold copyFile, Open. rewrite Hsrc. unfold created.
    rewrite (OpenFileExcl_fresh _ _ _ _ m') by done.
    rewrite (size_non_empty _ Hne). unfold Read.
    rewrite lookup_insert_ne by congruence. rewrite Hsrc.
    destruct (render_plain content tmplData Hc1 Hc2) as (t2 & -> & ->).
    by rewrite Write_created.
  - intros [k Hk]. unfold created in Hk.
    pose proof (f_equal length (app_removelast_last "" Hnil)) as Hlen.
    rewrite length_app in Hlen. simpl in Hlen.
    apply (f_equal length) in Hk as Hl. rewrite !length_app in Hl. simpl in Hl.
    destruct k; [|simpl in Hl; lia]. rewrite app_nil_r in Hk.
    rewrite Hk in Hfresh. congruence.
Qed.

Lemma rendered_name_can_leave_the_target_witness :
  let fs := <[["src"; "{{.who}}"] := File 0x1a4 "hi"]> fsTaken in
  copyEntry (λ _ _ fs, (Done, fs)) ["src"] ["dst"] {[ "who" := "../up" ]}
    (mkFileInfo "{{.who}}" false) fs =
    (Done, <[["up"] := File perm0660 "hi"]> fs) ∧
  ¬ (["dst"] `prefix_of` ["up"]).
Proof.
  apply (rendered_name_can_leave_the_target _ ["src"] ["dst"]
           {[ "who" := "../up" ]} "{{.who}}" "who" "up" _ 0x1a4 0x1ed 0x1ed "hi");
    try reflexivity.
  discriminate.
Defined.

(** ** The working directory of a test *)

Section working_directory.
Implicit Types (fs : FS) (t : list cleanup) (p : path).

Lemma Process_Chdir_dir p fs : dirAt fs p = true → Process.Chdir p fs = None.
Proof. unfold dirAt, Process.Chdir. by destruct (fs !! p) as [[]|]. Qed.

Lemma Getwd_inr now fs cwd : Process.Getwd now fs = inr cwd → cwd = now.
Proof. unfold Process.Getwd. destruct (fs !! now) as [[]|]; congruence. Qed.

Lemma runCleanup_restore cwd t fs p :
  dirAt fs cwd = true →
  runCleanup (restore cwd :: t) fs p = runCleanup t fs cwd.
Proof.
  intros Hd. cbn [runCleanup]. unfold restore.
  rewrite Process_Chdir_dir by done. by destruct (runCleanup t fs cwd).
Qed.

Lemma runCleanup_cons_end f t fs p :
  ∃ q, (runCleanup (f :: t) fs p).2 = (runCleanup t fs q).2.
Proof.
  cbn [runCleanup]. destruct (f fs p) as [e q]. exists q.
  by destruct (runCleanup t fs q).
Qed.

Lemma endsIn_end fs' cwd0 t now :
  endsIn fs' cwd0 t now → (runCleanup t fs' now).2 = cwd0.
Proof. by intros [H|[-> ->]]. Qed.

Lemma Chdir_endsIn fs' cwd0 t dir fs now :
  dirAt fs' cwd0 = true → endsIn fs' cwd0 t now →
  endsIn fs' cwd0 (Chdir t dir fs now).1.2 (Chdir t dir fs now).2.
Proof.
  intros Hd Hinv. unfold Chdir.
  destruct (Process.Getwd now fs) as [e|cwd] eqn:Hwd; [done|].
  apply Getwd_inr in Hwd as ->.
  assert (∀ p, (runCleanup (restore now :: t) fs' p).2 = cwd0) as Hall.
  { intros p. destruct Hinv as [Hall|[-> ->]].
    - destruct (runCleanup_cons_end (restore now) t fs' p) as [q ->]. apply Hall.
    - by rewrite runCleanup_restore. }
  destruct (Process.Chdir dir fs); by left.
Qed.

Lemma chdirs_endsIn fs' cwd0 calls t now :
  dirAt fs' cwd0 = true → endsIn fs' cwd0 t now →
  endsIn fs' cwd0 (chdirs calls t now).1.2 (chdirs calls t now).2.
Proof.
  intros Hd. revert t now.
  induction calls as [|[dir fs] calls IH]; intros t now Hinv; [done|].
  cbn [chdirs]. pose proof (Chdir_endsIn fs' cwd0 t dir fs now Hd Hinv) as Hstep.
  destruct (Chdir t dir fs now) as [[[e|] t'] now']; [done|]. by apply IH.
Qed.

Lemma Chdir_quiet fs' t dir fs now :
  dirAt fs' now = true → dirAt fs' dir = true → quiet fs' t →
  let r := Chdir t dir fs now in quiet fs' r.1.2 ∧ dirAt fs' r.2 = true.
Proof.
  intros Hnow Hdir Hq. unfold Chdir.
  destruct (Process.Getwd now fs) as [e|cwd] eqn:Hwd; [done|].
  apply Getwd_inr in Hwd as ->.
  assert (quiet fs' (restore now :: t)) as Hq'.
  { intros p. rewrite runCleanup_restore by done. apply Hq. }
  by destruct (Process.Chdir dir fs).
Qed.

Lemma chdirs_quiet fs' calls t now :
  dirAt fs' now = true → Forall (λ c, dirAt fs' c.1 = true) calls → quiet fs' t →
  quiet fs' (chdirs calls t now).1.2.
Proof.
  intros Hnow Hcalls. revert t now Hnow.
  induction Hcalls as [|[dir fs] calls Hdir Hcalls IH]; intros t now Hnow Hq; [done|].
  cbn [chdirs]. destruct (Chdir_quiet fs' t dir fs now Hnow Hdir Hq) as [Hq' Hnow'].
  destruct (Chdir t dir fs now) as [[[e|] t'] now']; [done|]. by apply IH.
Qed.

End working_directory.

(** X17: when a test ends, the working directory is the one from before its
    first [Chdir], if that directory still exists: whatever directories the
    calls went to, whichever call failed, and whatever became of the
    directories in between. *)
Theorem Chdir_restored_when_the_test_ends
    (calls : list (path * FS)) (cwd0 : path) (fs' : FS) :
  dirAt fs' cwd0 = true →
  let r := chdirs calls [] cwd0 in
  (runCleanup r.1.2 fs' r.2).2 = cwd0.
Proof.
  intros Hd r. apply endsIn_end, chdirs_endsIn; [done|]. by right.
Qed.

Lemma Chdir_restored_when_the_test_ends_witness :
  let r := chdirs [(["src"], fsTaken); (["dst"; "src"], fsTaken); (["gone"], fsTaken)]
             [] ["dst"] in
  r.1.1 = Some (FatalChdir (mkPathError "chdir" ["gone"] ENOENT)) ∧
  r.2 = ["dst"; "src"] ∧
  (runCleanup r.1.2 fsNotes r.2).2 = ["dst"].
Proof.
  split_and!; [reflexivity..|].
  apply (Chdir_restored_when_the_test_ends _ ["dst"] fsNotes). reflexivity.
Defined.

(** X18: the cleanups that [Chdir] registers end without [t.Fatal] when the
    directory from before the first call and the directories of the calls
    still exist at the end of the test. *)
Theorem Chdir_cleanups_do_not_fail
    (calls : list (path * FS)) (cwd0 : path) (fs' : FS) :
  dirAt fs' cwd0 = true →
  Forall (λ c, dirAt fs' c.1 = true) calls →
  let r := chdirs calls [] cwd0 in
  (runCleanup r.1.2 fs' r.2).1 = [].
Proof.
  intros Hd Hcalls r. by apply chdirs_quiet.
Qed.

Lemma Chdir_cleanups_do_not_fail_witness :
  let r := chdirs [(["src"], fsTaken); (["dst"; "src"], fsTaken)] [] ["dst"] in
  (runCleanup r.1.2 fsTaken r.2).1 = [].
Proof.
  apply (Chdir_cleanups_do_not_fail _ ["dst"] fsTaken); [reflexivity|].
  repeat constructor.
Defined.

(** A directory that the test left and that is gone at the end: the cleanup
    for it calls [t.Fatal], and the one registered before it still runs. *)
Example Chdir_cleanup_fatal :
  let r := chdirs [(["dst"; "src"], fsTaken); (["src"], fsTaken)] [] ["dst"] in
  runCleanup r.1.2 fsNotes r.2 =
    ([FatalCleanup (mkPathError "chdir" ["dst"; "src"] ENOENT)], ["dst"]).
Proof. reflexivity. Qed.
